(** * pynamubot: the rate limiter and the typed HTTP client

    A shallow embedding of [pynamubot/api/api.py] and
    [pynamubot/api/schemas.py].

    - Python floats are modelled by [PyFloat.float]: the two infinities, NaN
      and exact rationals for the finite values (no rounding).
    - [time.monotonic] and [time.sleep] act on a [World] that holds the
      clock, an oracle of the delays the scheduler adds, and the trace of
      the primitives that were called.
    - A Python exception is a value of [exn]; an effectful function is a
      state transformer that returns either an exception or a value, and
      the state it leaves behind in both cases. *)

From Stdlib Require Import QArith Lqa ZArith Lia List Ascii String Bool.
Import ListNotations.

Local Open Scope Q_scope.

(** ** Python floats, without rounding *)

Module PyFloat.

Inductive float : Type :=
| NaN
| NInf
| Fin (q : Q)
| PInf.

Definition zero : float := Fin 0.

(** [x - y] *)
Definition sub (x y : float) : float :=
  match x, y with
  | NaN, _ | _, NaN => NaN
  | Fin a, Fin b => Fin (a - b)
  | Fin _, PInf => NInf
  | Fin _, NInf => PInf
  | PInf, PInf => NaN
  | PInf, _ => PInf
  | NInf, NInf => NaN
  | NInf, _ => NInf
  end.

(** [x < y]; every comparison with NaN is false. *)
Definition ltb (x y : float) : bool :=
  match x, y with
  | NaN, _ | _, NaN => false
  | NInf, NInf => false
  | NInf, _ => true
  | Fin a, Fin b => negb (Qle_bool b a)
  | Fin _, PInf => true
  | Fin _, NInf => false
  | PInf, _ => false
  end.

(** [x <= y] *)
Definition leb (x y : float) : bool :=
  match x, y with
  | NaN, _ | _, NaN => false
  | NInf, _ => true
  | Fin a, Fin b => Qle_bool a b
  | Fin _, PInf => true
  | Fin _, NInf => false
  | PInf, PInf => true
  | PInf, _ => false
  end.

(** The builtin [max(a, b)]: [b] replaces [a] only when [b > a]. *)
Definition max (a b : float) : float := if ltb a b then b else a.

End PyFloat.
Import PyFloat.


(** ** JSON values, as [json.loads] and [Response.json()] return them *)

(** A [dict] is kept as the list of its items; [dict_get] returns the value
    of the first item with the key. *)
#[local] Set Warnings "-register-all".

Inductive json : Type :=
| JNull
| JBool (b : bool)
| JInt (n : Z)
| JFloat (x : Q)
| JStr (s : string)
| JList (items : list json)
| JDict (items : list (string * json)).

Fixpoint dict_get (key : string) (d : list (string * json)) : option json :=
  match d with
  | [] => None
  | (k, v) :: d' => if String.eqb key k then Some v else dict_get key d'
  end.

(** ** Exceptions *)

(** An HTTP response as the client sees it: the status code and the raw
    body. *)
Record Response : Type := mkResponse {
  status_code : Z;
  text : string
}.

(** Where in the input a validation error was found. *)
Inductive loc_item : Type :=
| LKey (name : string)
| LIdx (index : nat).

(** The error types of pydantic that the schemas of this package can
    produce. *)
Inductive error_type : Type :=
| missing
| string_type
| bool_type
| int_type
| datetime_type
| literal_error
| list_type
| model_type.

Record ErrorDetails : Type := mkError {
  err_type : error_type;
  err_loc : list loc_item
}.

Inductive exn : Type :=
| ValueError
| OverflowError
| TypeError
| JSONDecodeError
| HTTPError (response : Response)
| ValidationError (errors : list ErrorDetails)
| ConnectionError.

(** ** Effects *)

(** [M S A]: a computation over a state [S] that raises or returns an [A];
    the state survives a raise, as object fields and the clock do. *)
Definition M (S A : Type) : Type := S -> (exn + A) * S.

Definition ret {S A} (a : A) : M S A := fun s => (inr a, s).

Definition raise {S A} (e : exn) : M S A := fun s => (inl e, s).

Definition bind {S A B} (m : M S A) (k : A -> M S B) : M S B :=
  fun s =>
    match m s with
    | (inr a, s') => k a s'
    | (inl e, s') => (inl e, s')
    end.

Declare Scope py_scope.
Delimit Scope py_scope with py.
Notation "x <- m ;; k" := (bind m (fun x => k))
  (at level 61, m at next level, right associativity) : py_scope.
Notation "m ;;; k" := (bind m (fun _ => k))
  (at level 61, right associativity) : py_scope.

(** ** pydantic: validation of a JSON value against a model *)

(** Validation collects the errors of all the fields of a model: a result
    is either the list of errors or the validated value. *)
Definition result (A : Type) : Type := (list ErrorDetails + A)%type.

Definition ap {A B} (f : result (A -> B)) (a : result A) : result B :=
  match f, a with
  | inr g, inr x => inr (g x)
  | inl e, inr _ => inl e
  | inr _, inl e => inl e
  | inl e1, inl e2 => inl (e1 ++ e2)
  end.

Notation "f <*> a" := (ap f a) (at level 50, left associativity).

Definition errors_of {A} (r : result A) : list ErrorDetails :=
  match r with
  | inl es => es
  | inr _ => []
  end.

Definition at_loc {A} (l : loc_item) (r : result A) : result A :=
  match r with
  | inl es => inl (map (fun e => mkError (err_type e) (l :: err_loc e)) es)
  | inr a => inr a
  end.

Definition fail {A} (t : error_type) : result A := inl [mkError t []].

(** What pydantic does in its default (lax) mode with an input whose JSON
    type is not the type of the field ([1] or ["yes"] for a [bool], ["7"] or
    [7.0] for an [int]), and its parsing of a [datetime], are the library's;
    they are parameters of the model. *)
Class Pydantic : Type := {
  datetime : Type;
  datetime_validate : json -> option datetime;
  lax_bool : json -> option bool;
  lax_int : json -> option Z
}.

Definition validator (A : Type) : Type := json -> result A.

(** [str]: only a string is accepted. *)
Definition v_str : validator string :=
  fun j => match j with JStr s => inr s | _ => fail string_type end.

(** [bool] *)
Definition v_bool `{Pydantic} : validator bool :=
  fun j =>
    match j with
    | JBool b => inr b
    | _ => match lax_bool j with Some b => inr b | None => fail bool_type end
    end.

(** [int] *)
Definition v_int `{Pydantic} : validator Z :=
  fun j =>
    match j with
    | JInt n => inr n
    | _ => match lax_int j with Some n => inr n | None => fail int_type end
    end.

(** [datetime] *)
Definition v_datetime `{Pydantic} : validator datetime :=
  fun j =>
    match datetime_validate j with Some d => inr d | None => fail datetime_type end.

(** [Literal[...]] of strings: the input is one of the listed strings. *)
Definition v_literal (choices : list string) : validator string :=
  fun j =>
    match j with
    | JStr s => if existsb (String.eqb s) choices then inr s else fail literal_error
    | _ => fail literal_error
    end.

(** [Optional[T]]: [None], or a [T]. *)
Definition v_optional {A} (v : validator A) : validator (option A) :=
  fun j =>
    match j with
    | JNull => inr None
    | _ => match v j with inr a => inr (Some a) | inl es => inl es end
    end.

Fixpoint validate_items {A} (v : validator A) (i : nat) (l : list json) : result (list A) :=
  match l with
  | [] => inr []
  | j :: l' => inr cons <*> at_loc (LIdx i) (v j) <*> validate_items v (S i) l'
  end.

(** [list[T]] *)
Definition v_list {A} (v : validator A) : validator (list A) :=
  fun j =>
    match j with
    | JList l => validate_items v 0 l
    | _ => fail list_type
    end.

(** A field declared without a default is required: its key must be among
    the items of the input. Keys that no field declares are ignored. *)
Definition field {A} (name : string) (v : validator A) (d : list (string * json)) : result A :=
  match dict_get name d with
  | None => inl [mkError missing [LKey name]]
  | Some j => at_loc (LKey name) (v j)
  end.

(** The classes of [schemas.py] derive from [BaseModel]. *)
Class BaseModel (T : Type) : Type := {
  model_fields : list string;
  model_validate : validator T
}.

Arguments model_fields T {_}.

Definition not_a_model {A} : result A := fail model_type.

(** ** schemas.py *)

Module EditGETResponse.
Record t : Type := mk {
  text : string;
  exists_ : bool;
  token : string
}.

#[global] Instance model `{Pydantic} : BaseModel t := {
  model_fields := ["text"; "exists"; "token"]%string;
  model_validate j :=
    match j with
    | JDict d =>
        inr mk <*> field "text" v_str d
               <*> field "exists" v_bool d
               <*> field "token" v_str d
    | _ => not_a_model
    end
}.
End EditGETResponse.

Module EditPOSTBody.
Record t : Type := mk {
  text : string;
  log : string;
  token : string
}.

#[global] Instance model : BaseModel t := {
  model_fields := ["text"; "log"; "token"]%string;
  model_validate j :=
    match j with
    | JDict d =>
        inr mk <*> field "text" v_str d
               <*> field "log" v_str d
               <*> field "token" v_str d
    | _ => not_a_model
    end
}.
End EditPOSTBody.

Module EditPOSTResponse.
Record t : Type := mk {
  status : string;
  rev : Z
}.

#[global] Instance model `{Pydantic} : BaseModel t := {
  model_fields := ["status"; "rev"]%string;
  model_validate j :=
    match j with
    | JDict d =>
        inr mk <*> field "status" v_str d
               <*> field "rev" v_int d
    | _ => not_a_model
    end
}.
End EditPOSTResponse.

Module Namespaces.
Record t : Type := mk {
  namespace : string;
  count : Z
}.

#[global] Instance model `{Pydantic} : BaseModel t := {
  model_fields := ["namespace"; "count"]%string;
  model_validate j :=
    match j with
    | JDict d =>
        inr mk <*> field "namespace" v_str d
               <*> field "count" v_int d
    | _ => not_a_model
    end
}.
End Namespaces.

Module Backlinks.
Record t : Type := mk {
  document : string;
  flags : string
}.

#[global] Instance model : BaseModel t := {
  model_fields := ["document"; "flags"]%string;
  model_validate j :=
    match j with
    | JDict d =>
        inr mk <*> field "document" v_str d
               <*> field "flags" v_str d
    | _ => not_a_model
    end
}.
End Backlinks.

(** [fromm] and [until] are declared [Optional[str]] with a [Field] that has
    no default: their value may be [None], their key is required. The key of
    [fromm] is the name of the field, no alias is declared. *)
Module BacklinkResponse.
Record t : Type := mk {
  namespaces : list Namespaces.t;
  backlinks : list Backlinks.t;
  fromm : option string;
  until : option string
}.

#[global] Instance model `{Pydantic} : BaseModel t := {
  model_fields := ["namespaces"; "backlinks"; "fromm"; "until"]%string;
  model_validate j :=
    match j with
    | JDict d =>
        inr mk <*> field "namespaces" (v_list (model_validate (T := Namespaces.t))) d
               <*> field "backlinks" (v_list (model_validate (T := Backlinks.t))) d
               <*> field "fromm" (v_optional v_str) d
               <*> field "until" (v_optional v_str) d
    | _ => not_a_model
    end
}.
End BacklinkResponse.

Module DiscussResponse.
Definition status_values : list string := ["normal"; "close"; "pause"]%string.

Record t `{Pydantic} : Type := mk {
  slug : string;
  topic : string;
  updated_date : datetime;
  status : string
}.

Arguments mk {_} slug topic updated_date status.

#[global] Instance model `{Pydantic} : BaseModel t := {
  model_fields := ["slug"; "topic"; "updated_date"; "status"]%string;
  model_validate j :=
    match j with
    | JDict d =>
        inr mk <*> field "slug" v_str d
               <*> field "topic" v_str d
               <*> field "updated_date" v_datetime d
               <*> field "status" (v_literal status_values) d
    | _ => not_a_model
    end
}.
End DiscussResponse.

(** [Model.model_validate(obj)] as the client calls it: the errors are
    raised as one [ValidationError]. *)
Definition validate_or_raise {S A} (r : result A) : M S A :=
  match r with
  | inr a => ret a
  | inl es => raise (ValidationError es)
  end.

(** ** requests and the clock *)

Inductive Method : Type := GET | POST.

Inductive param_value : Type :=
| PStr (s : string)
| PInt (n : Z).

(** What the client hands to the session in one call of [session.get] or
    [session.post]: the URL it built, the parameters that have a value (the
    ones requests encodes), the [json] argument and the headers of the
    session. [outgoing_query] below is the query of the request that leaves
    with it. *)
Record Request : Type := mkRequest {
  method : Method;
  url : string;
  query : list (string * param_value);
  json_body : option EditPOSTBody.t;
  headers : list (string * string)
}.

(** What is outside the package: the installed version of the package (if
    any), the user agent of requests, the JSON decoder, and what a call of
    the session gives back: the response it returns (the last one, when
    requests follows redirects on its own) or the exception it raises. *)
Class Runtime : Type := {
  installed_version : option string;
  default_user_agent : string;
  json_loads : string -> option json;
  http_send : Request -> exn + Response
}.

(** What the primitives leave in the trace; [EvSend] is a call of the
    session that got as far as sending. *)
Inductive event : Type :=
| EvMonotonic (t : Q)
| EvSleep (secs : Q)
| EvSend (r : Request)
| EvJson
| EvValidate.

(** The clock, the delays still to come (one is consumed by each call of a
    time primitive: time that passes on its own), and the trace, most
    recent event first. *)
Record World : Type := mkWorld {
  clock : Q;
  delays : list Q;
  trace : list event
}.

Definition elapse (w : World) : World :=
  match delays w with
  | [] => w
  | d :: ds => mkWorld (clock w + d) ds (trace w)
  end.

Definition log (e : event) (w : World) : World :=
  mkWorld (clock w) (delays w) (e :: trace w).

(** The state of a method call: the object [self] and the world. *)
Definition get_self {S} : M (S * World) S :=
  fun sw => (inr (fst sw), sw).

Definition put_self {S} (s : S) : M (S * World) unit :=
  fun sw => (inr tt, (s, snd sw)).

Definition emit {S} (e : event) : M (S * World) unit :=
  fun sw => (inr tt, (fst sw, log e (snd sw))).

(** [time.monotonic()] *)
Definition time_monotonic {S} : M (S * World) float :=
  fun sw =>
    let w' := elapse (snd sw) in
    (inr (Fin (clock w')), (fst sw, log (EvMonotonic (clock w')) w')).

(** [time.sleep(secs)] converts [secs] to a signed 64-bit number of
    nanoseconds, rounding away from zero: NaN is a [ValueError]; a number of
    nanoseconds outside the 64 bits (an infinity, or more than about 9.22e9
    seconds) is an [OverflowError]; then a negative duration is a
    [ValueError]. Otherwise the call returns after at least [secs] seconds. *)
Definition ns_per_second : Q := 1000000000.

Definition max_ns : Q := 9223372036854775807.

Definition min_ns : Q := -9223372036854775808.

Definition fits_ns (d : Q) : bool :=
  Qle_bool min_ns (d * ns_per_second) && Qle_bool (d * ns_per_second) max_ns.

Definition sleep_arg (secs : float) : exn + Q :=
  match secs with
  | NaN => inl ValueError
  | NInf | PInf => inl OverflowError
  | Fin d =>
      if fits_ns d
      then if Qle_bool 0 d then inr d else inl ValueError
      else inl OverflowError
  end.

Definition time_sleep {S} (secs : float) : M (S * World) unit :=
  match sleep_arg secs with
  | inl e => raise e
  | inr d =>
      fun sw =>
        let w := snd sw in
        let w' := elapse (mkWorld (clock w + d) (delays w) (trace w)) in
        (inr tt, (fst sw, log (EvSleep d) w'))
  end.

(** requests leaves out of the query string every parameter whose value is
    [None]. *)
Fixpoint encode_params (params : list (string * option param_value)) : list (string * param_value) :=
  match params with
  | [] => []
  | (k, Some v) :: ps => (k, v) :: encode_params ps
  | (_, None) :: ps => encode_params ps
  end.

(** The query of a URL: what follows its first [?], up to the fragment
    that a [#] starts; its parameters are the pieces between the [&], each
    split at its first [=] (as they are spelled: nothing is decoded). *)
Fixpoint before (c : ascii) (s : string) : string :=
  match s with
  | EmptyString => EmptyString
  | String x s' => if Ascii.eqb x c then EmptyString else String x (before c s')
  end.

Fixpoint after (c : ascii) (s : string) : option string :=
  match s with
  | EmptyString => None
  | String x s' => if Ascii.eqb x c then Some s' else after c s'
  end.

Fixpoint contains (c : ascii) (s : string) : bool :=
  match s with
  | EmptyString => false
  | String x s' => Ascii.eqb x c || contains c s'
  end.

Fixpoint split_on (c : ascii) (s : string) : list string :=
  match s with
  | EmptyString => [EmptyString]
  | String x s' =>
      if Ascii.eqb x c then EmptyString :: split_on c s'
      else match split_on c s' with
           | [] => [String x EmptyString]
           | p :: ps => String x p :: ps
           end
  end.

Definition url_query (u : string) : option string :=
  after "?" (before "#" u).

Definition parse_param (piece : string) : string * param_value :=
  (before "=" piece,
   PStr match after "=" piece with Some v => v | None => EmptyString end).

Definition url_params (u : string) : list (string * param_value) :=
  match url_query u with
  | None => []
  | Some q =>
      map parse_param
        (filter (fun p => negb (String.eqb p EmptyString)) (split_on "&" q))
  end.

(** requests appends the encoded parameters to the query the URL already
    holds: the query of the request that is sent. *)
Definition outgoing_query (r : Request) : list (string * param_value) :=
  url_params (url r) ++ query r.

(** [Session.request]. The [json] argument is serialised with [json.dumps]
    while the request is prepared; a pydantic model is not serialisable:
    [TypeError], and nothing is sent. Otherwise the request is sent with the
    headers of the session, and the call returns the response or raises. *)
Definition session_request `{Runtime} {S} (hdrs : list (string * string)) (m : Method) (u : string)
    (params : list (string * option param_value)) (body : option EditPOSTBody.t)
    : M (S * World) Response :=
  match body with
  | Some _ => raise TypeError
  | None =>
      let r := mkRequest m u (encode_params params) None hdrs in
      (emit (EvSend r) ;;;
       match http_send r with
       | inr resp => ret resp
       | inl e => raise e
       end)%py
  end.

(** [Response.raise_for_status()]: an [HTTPError] that holds the response,
    for the client errors (4xx) and the server errors (5xx). *)
Definition is_error_status (resp : Response) : bool :=
  ((400 <=? status_code resp) && (status_code resp <? 600))%Z.

Definition raise_for_status {S} (resp : Response) : M S unit :=
  if is_error_status resp then raise (HTTPError resp) else ret tt.

(** [Response.json()] *)
Definition response_json `{Runtime} {S} (resp : Response) : M (S * World) json :=
  (emit EvJson ;;;
   match json_loads (text resp) with
   | Some j => ret j
   | None => raise JSONDecodeError
   end)%py.

(** [Model.model_validate(obj)] *)
Definition call_model_validate {S} (T : Type) `{BaseModel T} (j : json) : M (S * World) T :=
  (emit EvValidate ;;; validate_or_raise (model_validate j))%py.

(** ** class Limiter *)

Module Limiter.

(** [acquire_attr] is the instance attribute [self.acquire] that [__init__]
    sets to [lambda: None] when the interval is not positive; it shadows the
    method of the class. *)
Record t : Type := mk {
  interval : float;
  acquire_attr : bool;
  last : float
}.

(** [Limiter.__init__] *)
Definition __init__ (interval_seconds : float) : t :=
  {| interval := interval_seconds;
     acquire_attr := leb interval_seconds zero;
     last := NInf |}.

Definition set_last (x : float) : M (t * World) unit :=
  (self <- get_self ;;
   put_self (mk (interval self) (acquire_attr self) x))%py.

(** The method [acquire] of the class. *)
Definition acquire_method : M (t * World) unit :=
  (now <- time_monotonic ;;
   self <- get_self ;;
   let elapsed := sub now (last self) in
   let wait := sub (interval self) elapsed in
   time_sleep (max zero wait) ;;;
   now' <- time_monotonic ;;
   set_last now')%py.

(** The call [self.acquire()]: the instance attribute when there is one,
    the method of the class otherwise. *)
Definition acquire : M (t * World) unit :=
  (self <- get_self ;;
   if acquire_attr self then ret tt else acquire_method)%py.

(** [Limiter.__enter__] *)
Definition __enter__ : M (t * World) unit := acquire.

(** [n] calls of [acquire()] one after the other; the result is the value
    of [self.last] when each call returned. *)
Fixpoint acquire_times (n : nat) : M (t * World) (list float) :=
  match n with
  | O => ret []
  | S n' =>
      (acquire ;;;
       self <- get_self ;;
       rest <- acquire_times n' ;;
       ret (last self :: rest))%py
  end.

End Limiter.

(** ** class TheSeedAPIClient *)

Definition __title__ : string := "pynamubot".

(** [__version__.py]: the version of the installed package, ["0.0.0"] when
    the package is not installed. *)
Definition __version__ `{Runtime} : string :=
  match installed_version with
  | Some v => v
  | None => "0.0.0"%string
  end.

(** [s.rstrip("/")] *)
Fixpoint rstrip_slash (s : string) : string :=
  match s with
  | EmptyString => EmptyString
  | String c s' =>
      match rstrip_slash s' with
      | EmptyString => if Ascii.eqb c "/"%char then EmptyString else String c EmptyString
      | r => String c r
      end
  end.

(** The items a [for] loop over a JSON value goes through: the elements of
    a list, the keys of a dict, the characters of a string; the other values
    are not iterable. *)
Fixpoint chars (s : string) : list json :=
  match s with
  | EmptyString => []
  | String c s' => JStr (String c EmptyString) :: chars s'
  end.

Definition py_iter {S} (j : json) : M S (list json) :=
  match j with
  | JList l => ret l
  | JDict d => ret (map (fun kv => JStr (fst kv)) d)
  | JStr s => ret (chars s)
  | _ => raise TypeError
  end.

Module TheSeedAPIClient.

(** The session is kept as the headers [__init__] gives it; the logger is
    not used by any method. *)
Record t : Type := mk {
  base_url : string;
  api_token : string;
  session_headers : list (string * string);
  limiter : Limiter.t
}.

Definition user_agent `{Runtime} : string :=
  (default_user_agent ++ " " ++ __title__ ++ "/" ++ __version__)%string.

(** [TheSeedAPIClient.__init__] *)
Definition __init__ `{Runtime} (base_url api_token : string) (limiter : option Limiter.t) : t :=
  {| base_url := rstrip_slash base_url;
     api_token := api_token;
     session_headers :=
       [("Authorization", "Bearer " ++ api_token);
        ("Content-Type", "application/json");
        ("User-Agent", user_agent)]%string;
     limiter :=
       match limiter with
       | Some l => l
       | None => Limiter.__init__ (Fin 0)
       end |}.

(** A method of [self.limiter], run on the limiter the client holds. *)
Definition on_limiter {A} (m : M (Limiter.t * World) A) : M (t * World) A :=
  fun sw =>
    let self := fst sw in
    let '(r, (l', w')) := m (limiter self, snd sw) in
    (r, (mk (base_url self) (api_token self) (session_headers self) l', w')).

(** [with self.limiter, self.session.<method>(url, ...) as response:
       response.raise_for_status()
       ... response.json() ...] *)
Definition checked_json `{Runtime} (m : Method) (u : string)
    (params : list (string * option param_value)) (body : option EditPOSTBody.t)
    : M (t * World) json :=
  (self <- get_self ;;
   on_limiter Limiter.__enter__ ;;;
   response <- session_request (session_headers self) m u params body ;;
   raise_for_status response ;;;
   response_json response)%py.

Definition edit_get `{Runtime} `{Pydantic} (document : string) : M (t * World) EditGETResponse.t :=
  (self <- get_self ;;
   let url := (base_url self ++ "/edit/" ++ document)%string in
   j <- checked_json GET url [] None ;;
   call_model_validate EditGETResponse.t j)%py.

Definition edit_post `{Runtime} `{Pydantic} (document : string) (body : EditPOSTBody.t)
    : M (t * World) EditPOSTResponse.t :=
  (self <- get_self ;;
   let url := (base_url self ++ "/edit/" ++ document)%string in
   j <- checked_json POST url [] (Some body) ;;
   call_model_validate EditPOSTResponse.t j)%py.

Definition backlink `{Runtime} `{Pydantic} (document : string)
    (namespace : option string) (flag : option Z) (fromm until : option string)
    : M (t * World) BacklinkResponse.t :=
  (self <- get_self ;;
   let url := (base_url self ++ "/backlink/" ++ document)%string in
   let params :=
     [("namespace", option_map PStr namespace);
      ("flag", option_map PInt flag);
      ("from", option_map PStr fromm);
      ("until", option_map PStr until)]%string in
   j <- checked_json GET url params None ;;
   call_model_validate BacklinkResponse.t j)%py.

(** [[DiscussResponse.model_validate(item) for item in ...]] *)
Fixpoint validate_each (T : Type) `{BaseModel T} (items : list json) : M (t * World) (list T) :=
  match items with
  | [] => ret []
  | item :: rest =>
      (x <- call_model_validate T item ;;
       xs <- validate_each T rest ;;
       ret (x :: xs))%py
  end.

Definition discuss `{Runtime} `{Pydantic} (document : string) : M (t * World) (list DiscussResponse.t) :=
  (self <- get_self ;;
   let url := (base_url self ++ "/discuss/" ++ document)%string in
   j <- checked_json GET url [] None ;;
   items <- py_iter j ;;
   validate_each DiscussResponse.t items)%py.

End TheSeedAPIClient.

(** ** Threads that share one limiter *)

(** [Limiter] holds no lock, and [time.sleep] releases the interpreter: the
    lines of [acquire] of one thread can run between the lines of another.
    A thread is at one of the lines of [acquire]; an action of the schedule
    lets time pass or lets one thread run its next line. *)
Module Threads.

Inductive pc : Type :=
| Call
| AtNow
| AtElapsed (now : float)
| AtWait (elapsed : float)
| AtSleep (wait : float)
| Sleeping (wake : Q)
| AtStore
| Storing (t : Q)
| Returned (stamp : Q)
| Raised (e : exn).

Record conf : Type := mkConf {
  shared : Limiter.t;
  time : Q;
  threads : list pc
}.

Inductive action : Type :=
| Tick (d : Q)
| Run (tid : nat).

Fixpoint set_thread (i : nat) (p : pc) (l : list pc) : list pc :=
  match l, i with
  | [], _ => []
  | _ :: l', O => p :: l'
  | q :: l', S i' => q :: set_thread i' p l'
  end.

(** The next step of a thread: its new position and the limiter after it;
    [None] when the thread cannot run (it has finished, or it sleeps and its
    time has not come). The last line of [acquire] is two steps: the call of
    [time.monotonic()], then the store of its result in [self.last]; a thread
    that has returned keeps the time it stored. *)
Definition line (c : conf) (p : pc) : option (pc * Limiter.t) :=
  let self := shared c in
  match p with
  | Call =>
      if Limiter.acquire_attr self
      then Some (Returned (time c), self)
      else Some (AtNow, self)
  | AtNow => Some (AtElapsed (Fin (time c)), self)
  | AtElapsed now => Some (AtWait (sub now (Limiter.last self)), self)
  | AtWait elapsed => Some (AtSleep (sub (Limiter.interval self) elapsed), self)
  | AtSleep wait =>
      match sleep_arg (max zero wait) with
      | inr d => Some (Sleeping (time c + d), self)
      | inl e => Some (Raised e, self)
      end
  | Sleeping wake =>
      if Qle_bool wake (time c) then Some (AtStore, self) else None
  | AtStore => Some (Storing (time c), self)
  | Storing t =>
      Some (Returned t,
            Limiter.mk (Limiter.interval self) (Limiter.acquire_attr self) (Fin t))
  | Returned _ | Raised _ => None
  end.

Definition step (a : action) (c : conf) : option conf :=
  match a with
  | Tick d =>
      if Qle_bool 0 d then Some (mkConf (shared c) (time c + d) (threads c)) else None
  | Run i =>
      match nth_error (threads c) i with
      | None => None
      | Some p =>
          match line c p with
          | None => None
          | Some (p', self') => Some (mkConf self' (time c) (set_thread i p' (threads c)))
          end
      end
  end.

Fixpoint run (sched : list action) (c : conf) : option conf :=
  match sched with
  | [] => Some c
  | a :: sched' =>
      match step a c with
      | None => None
      | Some c' => run sched' c'
      end
  end.

(** [n] threads about to call [acquire()] on the limiter [l]. *)
Definition start (l : Limiter.t) (t0 : Q) (n : nat) : conf :=
  mkConf l t0 (repeat Call n).


(** The statement that acquisition is atomic, on the times the calls
    record when they return: whatever the schedule, two threads that have
    returned did so at least the interval apart. *)
Definition spaced_returns (i : Q) (c : conf) : Prop :=
  forall a b ta tb,
    a <> b ->
    nth_error (threads c) a = Some (Returned ta) ->
    nth_error (threads c) b = Some (Returned tb) ->
    ta + i <= tb \/ tb + i <= ta.

End Threads.

(** ** Statements about the limiter *)

Definition nonneg (ds : list Q) : Prop := Forall (fun d => 0 <= d) ds.

(** The values of [self.last] after successive calls are finite times, each
    at least [i] after the one before. *)
Definition spaced (i : Q) (ts : list float) : Prop :=
  forall k x y,
    nth_error ts k = Some x ->
    nth_error ts (S k) = Some y ->
    exists a b, x = Fin a /\ y = Fin b /\ a + i <= b.

(** A duration that [time.sleep] accepts: its nanoseconds fit 64 bits. *)
Definition fits (d : Q) : Prop := d * ns_per_second <= max_ns.

(** The events of successive calls of [acquire()], oldest first, and the
    values [ts] of [self.last] when they return, from the value [prev] that
    [self.last] had before: each call reads the clock ([now]), sleeps, reads
    the clock again and stores that reading. The sleep is decided from
    [self.last]: none for a limiter that was never used, none when the
    interval has passed since [self.last] as the clock is read; and the
    reading that is stored is at least the interval after [self.last]. *)
Fixpoint paced (i : Q) (prev : float) (evs : list event) (ts : list float) : Prop :=
  match ts with
  | [] => evs = []
  | t :: ts' =>
      exists now d b rest,
        evs = EvMonotonic now :: EvSleep d :: EvMonotonic b :: rest /\
        t = Fin b /\
        0 <= d /\
        (prev = NInf -> d == 0) /\
        (forall a, prev = Fin a -> (a + i <= now -> d == 0) /\ a + i <= b) /\
        paced i t rest ts'
  end.

(** ** Statements about the schemas *)

(** An instance of the parameters of pydantic for the examples: a
    [datetime] is a number of seconds, read from a JSON integer; no input of
    another type is converted. *)
Definition plain_pydantic : Pydantic :=
  {| datetime := Z;
     datetime_validate := fun j => match j with JInt n => Some n | _ => None end;
     lax_bool := fun _ => None;
     lax_int := fun _ => None |}.

(** The dict [d] has the key [key], with a value that satisfies [P]. *)
Definition has (d : list (string * json)) (key : string) (P : json -> Prop) : Prop :=
  exists j, dict_get key d = Some j /\ P j.

Definition opt_str (o : option string) (j : json) : Prop :=
  match o with
  | None => j = JNull
  | Some s => j = JStr s
  end.

(** A payload matches a schema structurally, and holds the values of the
    object [x]: it is a dict in which every declared field has its key, with
    a value of the JSON type of the field (a string for [str], a boolean for
    [bool], an integer for [int], a list of matching dicts for a list of
    models, null or a string for [Optional[str]], one of the listed strings
    for a [Literal], a value pydantic reads as the [datetime] of [x]). *)
Definition shape_EditGETResponse (j : json) (x : EditGETResponse.t) : Prop :=
  exists d, j = JDict d /\
    has d "text" (eq (JStr (EditGETResponse.text x))) /\
    has d "exists" (eq (JBool (EditGETResponse.exists_ x))) /\
    has d "token" (eq (JStr (EditGETResponse.token x))).

Definition shape_EditPOSTBody (j : json) (x : EditPOSTBody.t) : Prop :=
  exists d, j = JDict d /\
    has d "text" (eq (JStr (EditPOSTBody.text x))) /\
    has d "log" (eq (JStr (EditPOSTBody.log x))) /\
    has d "token" (eq (JStr (EditPOSTBody.token x))).

Definition shape_EditPOSTResponse (j : json) (x : EditPOSTResponse.t) : Prop :=
  exists d, j = JDict d /\
    has d "status" (eq (JStr (EditPOSTResponse.status x))) /\
    has d "rev" (eq (JInt (EditPOSTResponse.rev x))).

Definition shape_Namespaces (j : json) (x : Namespaces.t) : Prop :=
  exists d, j = JDict d /\
    has d "namespace" (eq (JStr (Namespaces.namespace x))) /\
    has d "count" (eq (JInt (Namespaces.count x))).

Definition shape_Backlinks (j : json) (x : Backlinks.t) : Prop :=
  exists d, j = JDict d /\
    has d "document" (eq (JStr (Backlinks.document x))) /\
    has d "flags" (eq (JStr (Backlinks.flags x))).

Definition shape_BacklinkResponse (j : json) (x : BacklinkResponse.t) : Prop :=
  exists d, j = JDict d /\
    has d "namespaces"
      (fun v => exists l, v = JList l /\
                          Forall2 shape_Namespaces l (BacklinkResponse.namespaces x)) /\
    has d "backlinks"
      (fun v => exists l, v = JList l /\
                          Forall2 shape_Backlinks l (BacklinkResponse.backlinks x)) /\
    has d "fromm" (opt_str (BacklinkResponse.fromm x)) /\
    has d "until" (opt_str (BacklinkResponse.until x)).

Definition shape_DiscussResponse `{Pydantic} (j : json) (x : DiscussResponse.t) : Prop :=
  exists d, j = JDict d /\
    has d "slug" (eq (JStr (DiscussResponse.slug x))) /\
    has d "topic" (eq (JStr (DiscussResponse.topic x))) /\
    has d "updated_date"
      (fun v => datetime_validate v = Some (DiscussResponse.updated_date x)) /\
    has d "status" (eq (JStr (DiscussResponse.status x))) /\
    In (DiscussResponse.status x) DiscussResponse.status_values.

(** The models that [schemas.py] declares, each with its validator and
    with what matching it means. *)
Inductive schema `{Pydantic} : forall T : Type, BaseModel T -> (json -> T -> Prop) -> Prop :=
| schema_EditGETResponse :
    schema EditGETResponse.t EditGETResponse.model shape_EditGETResponse
| schema_EditPOSTBody :
    schema EditPOSTBody.t EditPOSTBody.model shape_EditPOSTBody
| schema_EditPOSTResponse :
    schema EditPOSTResponse.t EditPOSTResponse.model shape_EditPOSTResponse
| schema_Namespaces :
    schema Namespaces.t Namespaces.model shape_Namespaces
| schema_Backlinks :
    schema Backlinks.t Backlinks.model shape_Backlinks
| schema_BacklinkResponse :
    schema BacklinkResponse.t BacklinkResponse.model shape_BacklinkResponse
| schema_DiscussResponse :
    schema DiscussResponse.t DiscussResponse.model shape_DiscussResponse.

(** ** Statements about the client *)

(** The four operations of the client, what each returns, and the request
    each sends. *)
Inductive operation : Type :=
| op_edit_get (document : string)
| op_edit_post (document : string) (body : EditPOSTBody.t)
| op_backlink (document : string) (namespace : option string) (flag : option Z)
    (fromm until : option string)
| op_discuss (document : string).

Inductive returned `{Pydantic} : Type :=
| ret_edit_get (r : EditGETResponse.t)
| ret_edit_post (r : EditPOSTResponse.t)
| ret_backlink (r : BacklinkResponse.t)
| ret_discuss (r : list DiscussResponse.t).

Definition call `{Runtime} `{Pydantic} (op : operation) : M (TheSeedAPIClient.t * World) returned :=
  match op with
  | op_edit_get document =>
      (r <- TheSeedAPIClient.edit_get document ;; ret (ret_edit_get r))%py
  | op_edit_post document body =>
      (r <- TheSeedAPIClient.edit_post document body ;; ret (ret_edit_post r))%py
  | op_backlink document namespace flag fromm until =>
      (r <- TheSeedAPIClient.backlink document namespace flag fromm until ;;
       ret (ret_backlink r))%py
  | op_discuss document =>
      (r <- TheSeedAPIClient.discuss document ;; ret (ret_discuss r))%py
  end.

Definition request_of (self : TheSeedAPIClient.t) (op : operation) : Request :=
  let base := TheSeedAPIClient.base_url self in
  let hdrs := TheSeedAPIClient.session_headers self in
  match op with
  | op_edit_get document =>
      mkRequest GET (base ++ "/edit/" ++ document) [] None hdrs
  | op_edit_post document body =>
      mkRequest POST (base ++ "/edit/" ++ document) [] (Some body) hdrs
  | op_backlink document namespace flag fromm until =>
      mkRequest GET (base ++ "/backlink/" ++ document)
        (encode_params [("namespace", option_map PStr namespace);
                        ("flag", option_map PInt flag);
                        ("from", option_map PStr fromm);
                        ("until", option_map PStr until)])
        None hdrs
  | op_discuss document =>
      mkRequest GET (base ++ "/discuss/" ++ document) [] None hdrs
  end%string.

(** The client after its limiter has become [l]. *)
Definition with_limiter (self : TheSeedAPIClient.t) (l : Limiter.t) : TheSeedAPIClient.t :=
  TheSeedAPIClient.mk (TheSeedAPIClient.base_url self) (TheSeedAPIClient.api_token self)
    (TheSeedAPIClient.session_headers self) l.

(** The calls of the session that got as far as sending, most recent
    first: what each was handed. *)
Definition sent (w : World) : list Request :=
  flat_map (fun e => match e with EvSend r => [r] | _ => [] end) (trace w).

(** The statement that every response with a status outside 200..299 makes
    the operation raise the HTTP status error of that response. *)
Definition raises_for_every_non_2xx (R : Runtime) (P : Pydantic) : Prop :=
  forall (op : operation) (self : TheSeedAPIClient.t) (w w1 : World)
         (l1 : Limiter.t) (resp : Response),
    Limiter.acquire (TheSeedAPIClient.limiter self, w) = (inr tt, (l1, w1)) ->
    http_send (request_of self op) = inr resp ->
    ~ (200 <= status_code resp < 300)%Z ->
    fst (call op (self, w)) = inl (HTTPError resp).

(** A server for the examples: it answers every request with the status
    and the body it is given; the decoder reads that body as [j]. *)
Definition server (status : Z) (body : string) (j : json) : Runtime :=
  {| installed_version := None;
     default_user_agent := "python-requests";
     json_loads := fun s => if String.eqb s body then Some j else None;
     http_send := fun _ => inr (mkResponse status body) |}.

Definition quoted (s : string) : string :=
  (String (ascii_of_nat 34) s ++ String (ascii_of_nat 34) EmptyString)%string.

(** The body of the example of the specification and its decoding. *)
Definition hi_body : string :=
  ("{" ++ quoted "text" ++ ":" ++ quoted "hi" ++ "," ++
   quoted "exists" ++ ":true," ++
   quoted "token" ++ ":" ++ quoted "t1" ++ "}")%string.

Definition hi_json : json :=
  JDict [("text", JStr "hi"); ("exists", JBool true); ("token", JStr "t1")]%string.

(** Computations that send nothing. *)
Definition quiet {S A} (m : M (S * World) A) : Prop :=
  forall s r s', m s = (r, s') -> sent (snd s') = sent (snd s).

(** A server that answers with a list of two discussions, the second with
    a status that is not declared. *)
Definition archived_body : string :=
  ("[{" ++ quoted "slug" ++ ":" ++ quoted "a" ++ "," ++
           quoted "topic" ++ ":" ++ quoted "A" ++ "," ++
           quoted "updated_date" ++ ":1700000000," ++
           quoted "status" ++ ":" ++ quoted "normal" ++ "},{" ++
           quoted "slug" ++ ":" ++ quoted "b" ++ "," ++
           quoted "topic" ++ ":" ++ quoted "B" ++ "," ++
           quoted "updated_date" ++ ":1700000001," ++
           quoted "status" ++ ":" ++ quoted "archived" ++ "}]")%string.

Definition archived_item : list (string * json) :=
  [("slug", JStr "b"); ("topic", JStr "B");
   ("updated_date", JInt 1700000001); ("status", JStr "archived")]%string.

Definition archived_json : json :=
  JList [JDict [("slug", JStr "a"); ("topic", JStr "A");
                ("updated_date", JInt 1700000000); ("status", JStr "normal")]%string;
         JDict archived_item].

(** ** Statements about threads *)



(** One call from its first line to its return, with a pause of [d] before
    the sleep ends. *)
Definition whole_call (tid : nat) (d : Q) : list Threads.action :=
  [Threads.Run tid; Threads.Run tid; Threads.Run tid; Threads.Run tid;
   Threads.Run tid; Threads.Tick d; Threads.Run tid; Threads.Run tid;
   Threads.Run tid].

(** Three threads: the third has read the clock for its store when it is
    suspended; the first then runs its whole call ten seconds later; the third
    stores its old reading; the second starts after the first has returned. *)
Definition stale_store : list Threads.action :=
  [Threads.Run 2; Threads.Run 2; Threads.Run 2; Threads.Run 2;
   Threads.Run 2; Threads.Run 2; Threads.Run 2; Threads.Tick 10] ++
  whole_call 0 0 ++
  [Threads.Run 2; Threads.Tick (1 # 2)] ++
  whole_call 1 0.





(** ** specific/theseedwiki.py *)

Module NamespaceType.

Inductive t : Type :=
| CATEGORY
| DOCUMENT
| FRAME
| FILE
| TEMPLATE
| USER
| META
| TRASH
| SYSTEM
| FILE_TRASH.

Definition members : list t :=
  [CATEGORY; DOCUMENT; FRAME; FILE; TEMPLATE; USER; META; TRASH; SYSTEM; FILE_TRASH].

(** [member.value] *)
Definition value (m : t) : string :=
  match m with
  | CATEGORY => "분류"
  | DOCUMENT => "문서"
  | FRAME => "틀"
  | FILE => "파일"
  | TEMPLATE => "템플릿"
  | USER => "사용자"
  | META => "더시드위키"
  | TRASH => "휴지통"
  | SYSTEM => "시스템"
  | FILE_TRASH => "파일휴지통"
  end.

(** [NamespaceType(v)]: the first member with the value [v]; a [ValueError]
    when there is none. *)
Definition of_value (v : string) : exn + t :=
  match find (fun m => String.eqb (value m) v) members with
  | Some m => inr m
  | None => inl ValueError
  end.

End NamespaceType.

Module BacklinkType.

Inductive t : Type :=
| ANY
| LINK
| FILE
| INCLUDE
| REDIRECT.

Definition members : list t := [ANY; LINK; FILE; INCLUDE; REDIRECT].

(** [member.value]; an [IntEnum] member is that integer. *)
Definition value (m : t) : Z :=
  match m with
  | ANY => 0
  | LINK => 1
  | FILE => 2
  | INCLUDE => 4
  | REDIRECT => 8
  end.

(** [BacklinkType(v)] *)
Definition of_value (v : Z) : exn + t :=
  match find (fun m => Z.eqb (value m) v) members with
  | Some m => inr m
  | None => inl ValueError
  end.

(** [a | b | ...] on the members of a list, as integers. *)
Definition union (ms : list t) : Z :=
  fold_right (fun m acc => Z.lor (value m) acc) 0%Z ms.

End BacklinkType.

(** ** Statements about the rest of the code *)

(** The durations [time.sleep] was asked for, most recent first. *)
Definition sleeps (w : World) : list Q :=
  flat_map (fun e => match e with EvSleep d => [d] | _ => [] end) (trace w).

(** [self.last] is not later than the clock. *)
Definition not_ahead (l : Limiter.t) (now : Q) : Prop :=
  Limiter.last l = NInf \/ exists a, Limiter.last l = Fin a /\ a <= now.

Fixpoint slashes (n : nat) : string :=
  match n with
  | O => EmptyString
  | S n' => String "/"%char (slashes n')
  end.

(** An infinite interval on a limiter that has been used. *)
Definition stuck_limiter : Limiter.t := Limiter.mk PInf false (Fin 0).

(** The events of decoding and validating a body. *)
Definition body_event (e : event) : Prop := e = EvJson \/ e = EvValidate.

(** The operations that call [session.get]. *)
Definition is_get (op : operation) : Prop :=
  match op with
  | op_edit_post _ _ => False
  | _ => True
  end.

(** The statement that a call of [backlink] with a document only sends
    none of the four parameters. *)
Definition omits_unset_params (R : Runtime) (P : Pydantic) : Prop :=
  forall (document : string) (self : TheSeedAPIClient.t) (w w1 : World)
         (l1 : Limiter.t) (r : Request) (k : string),
    Limiter.acquire (TheSeedAPIClient.limiter self, w) = (inr tt, (l1, w1)) ->
    sent (snd (snd (TheSeedAPIClient.backlink document None None None None (self, w)))) =
      r :: sent w ->
    In k ["namespace"; "flag"; "from"; "until"]%string ->
    ~ In k (map fst (outgoing_query r)).

(** A computation that only adds events of decoding and validating to the
    trace: the object, the clock and the delays are as before. *)
Definition only_logs {S A} (m : M (S * World) A) : Prop :=
  forall s r s',
    m s = (r, s') ->
    exists evs,
      s' = (fst s, mkWorld (clock (snd s)) (delays (snd s)) (evs ++ trace (snd s))) /\
      Forall body_event evs.

(** The world after [n] more calls of [model_validate]. *)
Definition validated (n : nat) (w : World) : World :=
  mkWorld (clock w) (delays w) (repeat EvValidate n ++ trace w).

(** What [discuss] gives on a decoded body that is not a non-empty list. *)
Definition discuss_on_other `{Pydantic} (j : json) : exn + list DiscussResponse.t :=
  match j with
  | JNull | JBool _ | JInt _ | JFloat _ => inl TypeError
  | JDict (_ :: _) | JStr (String _ _) => inl (ValidationError [mkError model_type []])
  | _ => inr []
  end.

(** A server for the examples whose bodies are not JSON. *)
Definition text_server (status : Z) (body : string) : Runtime :=
  {| installed_version := None;
     default_user_agent := "python-requests";
     json_loads := fun _ => None;
     http_send := fun _ => inr (mkResponse status body) |}.

(** * Proofs *)

(** ** Floats *)

Lemma ltb_Fin (a b : Q) : ltb (Fin a) (Fin b) = true <-> a < b.
Proof.
  simpl. rewrite negb_true_iff. split; intro H.
  - apply Qnot_le_lt. intro Hle. apply Qle_bool_iff in Hle. congruence.
  - destruct (Qle_bool b a) eqn:E; [|reflexivity].
    apply Qle_bool_iff in E. lra.
Qed.

Lemma Qle_bool_false (a b : Q) : Qle_bool a b = false <-> b < a.
Proof.
  split; intro H.
  - apply Qnot_le_lt. intro Hle. apply Qle_bool_iff in Hle. congruence.
  - destruct (Qle_bool a b) eqn:E; [|reflexivity].
    apply Qle_bool_iff in E. lra.
Qed.

Lemma leb_zero_true (x : float) :
  leb x zero = true <-> x = NInf \/ exists q, x = Fin q /\ q <= 0.
Proof.
  destruct x as [| |q|]; simpl; split; intro H; try discriminate; auto.
  - destruct H as [H|[q [H _]]]; discriminate.
  - right. exists q. split; [reflexivity|]. now apply Qle_bool_iff.
  - destruct H as [H|[q' [H Hq]]]; [discriminate|].
    injection H as ->. now apply Qle_bool_iff.
  - destruct H as [H|[q [H _]]]; discriminate.
Qed.

(** ** The clock *)

Lemma elapse_clock (w : World) :
  nonneg (delays w) ->
  clock w <= clock (elapse w) /\ nonneg (delays (elapse w)).
Proof.
  unfold elapse, nonneg. intro H.
  destruct (delays w) as [|d ds] eqn:E.
  - rewrite E. split; [lra | constructor].
  - inversion H; subst. simpl. split; [lra | assumption].
Qed.

Lemma elapse_trace (w : World) : trace (elapse w) = trace w.
Proof. unfold elapse. destruct (delays w); reflexivity. Qed.

(** ** What [time.sleep] accepts *)

Lemma fits_ns_nonneg (d : Q) :
  0 <= d -> fits_ns d = Qle_bool (d * ns_per_second) max_ns.
Proof.
  intro Hd. unfold fits_ns.
  replace (Qle_bool min_ns (d * ns_per_second)) with true; [reflexivity|].
  symmetry. apply Qle_bool_iff. unfold min_ns, ns_per_second. lra.
Qed.

Lemma sleep_arg_fits (d : Q) : 0 <= d -> fits d -> sleep_arg (Fin d) = inr d.
Proof.
  intros Hd Hf. cbn [sleep_arg]. rewrite (fits_ns_nonneg d Hd).
  replace (Qle_bool (d * ns_per_second) max_ns) with true
    by (symmetry; now apply Qle_bool_iff).
  replace (Qle_bool 0 d) with true by (symmetry; now apply Qle_bool_iff).
  reflexivity.
Qed.

Lemma sleep_arg_too_long (d : Q) :
  0 <= d -> ~ fits d -> sleep_arg (Fin d) = inl OverflowError.
Proof.
  intros Hd Hf. cbn [sleep_arg]. rewrite (fits_ns_nonneg d Hd).
  destruct (Qle_bool (d * ns_per_second) max_ns) eqn:E; [|reflexivity].
  apply Qle_bool_iff in E. contradiction.
Qed.

Lemma fits_le (d i : Q) : d <= i -> fits i -> fits d.
Proof. unfold fits, ns_per_second. intros. lra. Qed.

Lemma fits_dec (d : Q) : fits d \/ ~ fits d.
Proof.
  unfold fits. destruct (Qlt_le_dec max_ns (d * ns_per_second)) as [H|H].
  - right. intro H'. lra.
  - now left.
Qed.

(** The wait of [acquire] on a finite clock and interval is a finite
    duration, not negative; zero for a limiter that was never used and when
    the interval has passed since [prev]; enough to reach [prev + i]; and at
    most [i] when [prev] is not later than the clock. *)
Lemma wait_cases (i now : Q) (prev : float) :
  prev = NInf \/ (exists a, prev = Fin a) ->
  exists d, max zero (sub (Fin i) (sub (Fin now) prev)) = Fin d /\
            0 <= d /\
            (prev = NInf -> d == 0) /\
            forall a, prev = Fin a ->
                      (a + i <= now -> d == 0) /\
                      a + i <= now + d /\
                      (a <= now -> 0 <= i -> d <= i).
Proof.
  intros [->|[a ->]].
  - exists 0. simpl. repeat split; intros; try discriminate; lra.
  - cbn [sub]. unfold max, zero.
    destruct (ltb (Fin 0) (Fin (i - (now - a)))) eqn:E.
    + apply ltb_Fin in E. exists (i - (now - a)).
      repeat split; intros; try discriminate;
        try match goal with H : Fin _ = Fin _ |- _ => injection H as <- end; lra.
    + exists 0. cbn [ltb] in E. apply negb_false_iff, Qle_bool_iff in E.
      repeat split; intros; try discriminate;
        try match goal with H : Fin _ = Fin _ |- _ => injection H as <- end; lra.
Qed.

(** ** One call of [acquire] on an enabled limiter *)

Lemma sleeps_elapse (w : World) : sleeps (elapse w) = sleeps w.
Proof. unfold sleeps. now rewrite elapse_trace. Qed.

(** The call reads the clock and decides its wait [d] from [self.last].
    When [time.sleep] accepts [d], the call sleeps, reads the clock again and
    stores the reading; otherwise [time.sleep] raises [OverflowError] and the
    limiter is left as it was. *)
Lemma acquire_step (i : Q) (l : Limiter.t) (w : World) :
  Limiter.interval l = Fin i ->
  Limiter.acquire_attr l = false ->
  Limiter.last l = NInf \/ (exists a, Limiter.last l = Fin a) ->
  nonneg (delays w) ->
  exists d,
    0 <= d /\
    (Limiter.last l = NInf -> d == 0) /\
    (forall a, Limiter.last l = Fin a ->
               (a + i <= clock (elapse w) -> d == 0) /\
               (a <= clock (elapse w) -> 0 <= i -> d <= i)) /\
    ((fits d /\
      exists w',
        Limiter.acquire (l, w) =
          (inr tt, (Limiter.mk (Fin i) false (Fin (clock w')), w')) /\
        nonneg (delays w') /\
        trace w' =
          [EvMonotonic (clock w'); EvSleep d; EvMonotonic (clock (elapse w))]
          ++ trace w /\
        clock w <= clock w' /\
        forall a, Limiter.last l = Fin a -> a + i <= clock w') \/
     (~ fits d /\
      Limiter.acquire (l, w) =
        (inl OverflowError, (l, log (EvMonotonic (clock (elapse w))) (elapse w))))).
Proof.
  intros Hi Ha Hl Hw.
  destruct (elapse_clock w Hw) as [Hc1 Hd1].
  set (w1 := elapse w) in *.
  destruct (wait_cases i (clock w1) (Limiter.last l) Hl) as [d [Hm [Hd [Hn Hf]]]].
  exists d. split; [exact Hd|]. split; [exact Hn|]. split.
  { intros a Hla. destruct (Hf a Hla) as [H1 [_ H3]]. now split. }
  assert (Hrun : Limiter.acquire (l, w) =
                 bind (time_sleep (Fin d))
                   (fun _ => bind time_monotonic Limiter.set_last)
                   (l, log (EvMonotonic (clock w1)) w1)).
  { unfold Limiter.acquire, bind at 1, get_self at 1. cbn [fst]. rewrite Ha.
    unfold Limiter.acquire_method, bind at 1, time_monotonic at 1. cbn [fst snd].
    fold w1. unfold bind at 1, get_self at 1. cbn [fst snd].
    rewrite Hi, Hm. reflexivity. }
  rewrite Hrun. unfold bind at 1, time_sleep.
  destruct (fits_dec d) as [Hfit|Hfit].
  - left. split; [exact Hfit|]. rewrite (sleep_arg_fits d Hd Hfit). cbn [fst snd].
    set (w2 := log (EvMonotonic (clock w1)) w1).
    set (w3 := elapse (mkWorld (clock w2 + d) (delays w2) (trace w2))).
    assert (H3 : clock w1 + d <= clock w3 /\ nonneg (delays w3)).
    { apply (elapse_clock (mkWorld (clock w2 + d) (delays w2) (trace w2))).
      exact Hd1. }
    destruct H3 as [Hc3 Hd3].
    set (w4 := log (EvSleep d) w3).
    destruct (elapse_clock w4 Hd3) as [Hc4 Hd4].
    change (clock w4) with (clock w3) in Hc4.
    exists (log (EvMonotonic (clock (elapse w4))) (elapse w4)).
    split; [|split; [|split; [|split]]].
    + unfold bind, time_monotonic, Limiter.set_last, bind, get_self, put_self.
      cbn [fst snd]. rewrite Hi, Ha. reflexivity.
    + exact Hd4.
    + cbn [trace log]. rewrite elapse_trace. unfold w4, w3. cbn [trace log].
      rewrite elapse_trace. cbn [trace]. unfold w2, w1. cbn [trace log].
      now rewrite elapse_trace.
    + cbn [clock log]. lra.
    + intros a Hla. destruct (Hf a Hla) as [_ [H2 _]]. cbn [clock log]. lra.
  - right. split; [exact Hfit|]. rewrite (sleep_arg_too_long d Hd Hfit).
    reflexivity.
Qed.

Lemma sleeps_of_call (w w' : World) (b d now : Q) :
  trace w' = [EvMonotonic b; EvSleep d; EvMonotonic now] ++ trace w ->
  sleeps w' = d :: sleeps w.
Proof. unfold sleeps. now intros ->. Qed.

(** [n] calls in a row: the sleeps are within [0, i]; the calls all return,
    paced by [self.last], unless a wait is more than [time.sleep] accepts,
    which takes an interval that is. *)
Lemma acquire_times_run (i : Q) (n : nat) :
  0 <= i ->
  forall (l : Limiter.t) (w : World),
    Limiter.interval l = Fin i ->
    Limiter.acquire_attr l = false ->
    not_ahead l (clock w) ->
    nonneg (delays w) ->
    exists r l' w' ds,
      Limiter.acquire_times n (l, w) = (r, (l', w')) /\
      sleeps w' = ds ++ sleeps w /\
      Forall (fun d => 0 <= d /\ d <= i) ds /\
      ((exists ts evs,
          r = inr ts /\ List.length ts = n /\ List.length ds = n /\
          trace w' = rev evs ++ trace w /\
          paced i (Limiter.last l) evs ts) \/
       (r = inl OverflowError /\ ~ fits i /\ (List.length ds < n)%nat)).
Proof.
  intro Hi0. induction n as [|n IH]; intros l w Hi Ha Hl Hw.
  - exists (inr []), l, w, []. repeat split; [constructor|].
    left. exists [], []. repeat split.
  - assert (Hl' : Limiter.last l = NInf \/ (exists a, Limiter.last l = Fin a)).
    { destruct Hl as [Hl|[a [Hl _]]]; [now left|right; now exists a]. }
    destruct (elapse_clock w Hw) as [Hc1 _].
    destruct (acquire_step i l w Hi Ha Hl' Hw) as [d [Hd0 [Hn [Hf Hcase]]]].
    assert (Hdi : d <= i).
    { destruct Hl as [Hl|[a [Hl Hle]]].
      - rewrite (Hn Hl). exact Hi0.
      - destruct (Hf a Hl) as [_ H2]. apply H2; [lra|exact Hi0]. }
    cbn [Limiter.acquire_times]. unfold bind at 1.
    destruct Hcase as [[Hfit [w1 [E [Hd1 [Htr [Hcw Hsp]]]]]]|[Hfit E]].
    + rewrite E. unfold bind at 1, get_self at 1. cbn [fst].
      set (l1 := Limiter.mk (Fin i) false (Fin (clock w1))) in *.
      assert (Hl1 : not_ahead l1 (clock w1)).
      { right. exists (clock w1). split; [reflexivity|lra]. }
      destruct (IH l1 w1 eq_refl eq_refl Hl1 Hd1)
        as [r [l2 [w2 [ds [E2 [Hs [HF Hout]]]]]]].
      unfold bind at 1. rewrite E2.
      pose proof (sleeps_of_call w w1 _ _ _ Htr) as Hs1.
      destruct Hout as [[ts [evs [-> [Hlen [Hlds [Htr2 Hp]]]]]]|[-> [Hnf Hlt]]].
      * exists (inr (Fin (clock w1) :: ts)), l2, w2, (ds ++ [d]).
        split; [reflexivity|]. split; [now rewrite Hs, Hs1, <- app_assoc|].
        split; [apply Forall_app; split; [exact HF|repeat constructor; assumption]|].
        left.
        exists (Fin (clock w1) :: ts),
          ([EvMonotonic (clock (elapse w)); EvSleep d; EvMonotonic (clock w1)] ++ evs).
        split; [reflexivity|]. split; [cbn; now rewrite Hlen|].
        split; [rewrite length_app, Hlds; cbn; lia|].
        split.
        { rewrite Htr2, Htr, rev_app_distr, <- app_assoc. reflexivity. }
        cbn [paced app].
        exists (clock (elapse w)), d, (clock w1), evs.
        repeat split; try assumption.
        -- intros Ha1. now apply (Hf a).
        -- now apply Hsp.
      * exists (inl OverflowError), l2, w2, (ds ++ [d]).
        split; [reflexivity|]. split; [now rewrite Hs, Hs1, <- app_assoc|].
        split; [apply Forall_app; split; [exact HF|repeat constructor; assumption]|].
        right. repeat split; [exact Hnf|]. rewrite length_app. cbn. lia.
    + rewrite E.
      exists (inl OverflowError), l, (log (EvMonotonic (clock (elapse w))) (elapse w)), [].
      split; [reflexivity|]. split; [exact (sleeps_elapse w)|].
      split; [constructor|]. right. repeat split; [|cbn; lia].
      intro Hfi. apply Hfit. exact (fits_le d i Hdi Hfi).
Qed.

Lemma paced_spaced (i : Q) (ts : list float) :
  forall prev evs, paced i prev evs ts -> spaced i ts.
Proof.
  induction ts as [|x rest IH]; intros prev evs H k a b Ha Hb.
  - destruct k; discriminate.
  - cbn [paced] in H.
    destruct H as [now [d [bx [evs' [_ [-> [_ [_ [_ Hrest]]]]]]]]].
    destruct k as [|k].
    + injection Ha as <-. destruct rest as [|y rest']; [discriminate|].
      injection Hb as <-. cbn [paced] in Hrest.
      destruct Hrest as [now' [d' [by_ [evs'' [_ [-> [_ [_ [Hy _]]]]]]]]].
      exists bx, by_. repeat split. now apply (Hy bx).
    + apply (IH _ _ Hrest k a b); assumption.
Qed.

(** ** A limiter whose [acquire] was replaced in [__init__] *)

Lemma acquire_times_disabled (n : nat) (l : Limiter.t) (w : World) :
  Limiter.acquire_attr l = true ->
  Limiter.acquire_times n (l, w) = (inr (repeat (Limiter.last l) n), (l, w)).
Proof.
  intro Ha. induction n as [|n IH]; [reflexivity|].
  cbn [Limiter.acquire_times repeat].
  unfold bind at 1. unfold Limiter.acquire, bind at 1, get_self at 1.
  cbn [fst]. rewrite Ha. unfold ret at 1.
  unfold bind at 1, get_self at 1. cbn [fst].
  unfold bind at 1. rewrite IH. reflexivity.
Qed.

(** C1. With a finite interval [i > 0] and a clock that only goes
    forward, [n] calls of [acquire()] one after the other on a fresh
    limiter. Each call reads the clock, decides its sleep from [self.last],
    the time the call before stored after its own sleep (no sleep for a
    limiter that was never used, none when [i] has passed since [self.last]),
    sleeps, reads the clock again and stores that reading, which is at least
    [i] after the one before: the times of return are at least [i] apart.
    The calls all return as long as [time.sleep] accepts [i] seconds; past
    that (about 9.22e9 seconds) a call may raise [OverflowError] instead, and
    no later call completes. *)
Theorem acquire_min_spacing (i : Q) (w : World) (n : nat) :
  0 < i ->
  nonneg (delays w) ->
  (exists ts evs l' w',
     Limiter.acquire_times n (Limiter.__init__ (Fin i), w) = (inr ts, (l', w')) /\
     List.length ts = n /\
     spaced i ts /\
     trace w' = rev evs ++ trace w /\
     paced i NInf evs ts) \/
  (~ fits i /\
   exists s',
     Limiter.acquire_times n (Limiter.__init__ (Fin i), w) = (inl OverflowError, s')).
Proof.
  intros Hi Hw.
  assert (Ha : Limiter.acquire_attr (Limiter.__init__ (Fin i)) = false).
  { cbn. now apply Qle_bool_false. }
  assert (Hi0 : 0 <= i) by lra.
  destruct (acquire_times_run i n Hi0 (Limiter.__init__ (Fin i)) w
              eq_refl Ha (or_introl eq_refl) Hw)
    as [r [l' [w' [ds [E [_ [_ Hout]]]]]]].
  destruct Hout as [[ts [evs [-> [Hlen [_ [Htr Hp]]]]]]|[-> [Hnf _]]].
  - left. exists ts, evs, l', w'. repeat split; try assumption.
    exact (paced_spaced i ts _ _ Hp).
  - right. split; [exact Hnf|]. now exists (l', w').
Qed.

Lemma acquire_min_spacing_witness :
  (exists ts evs l' w',
     Limiter.acquire_times 3
       (Limiter.__init__ (Fin 1), mkWorld 0 [1 # 4; 0; 2; 1 # 3] []) =
       (inr ts, (l', w')) /\
     List.length ts = 3%nat /\
     spaced 1 ts /\
     trace w' = rev evs ++ trace (mkWorld 0 [1 # 4; 0; 2; 1 # 3] []) /\
     paced 1 NInf evs ts) \/
  (~ fits 1 /\
   exists s',
     Limiter.acquire_times 3
       (Limiter.__init__ (Fin 1), mkWorld 0 [1 # 4; 0; 2; 1 # 3] []) =
       (inl OverflowError, s')).
Proof.
  apply (acquire_min_spacing 1 (mkWorld 0 [1 # 4; 0; 2; 1 # 3] []) 3).
  - reflexivity.
  - unfold nonneg. cbn [delays].
    repeat constructor; unfold Qle; simpl; lia.
Defined.

(** C2. With an interval equal to zero, [acquire()] does nothing, however
    often it is called: the world is the same afterwards (nothing was added
    to the trace: no call of [time.sleep], no reading of the clock) and so
    is the limiter ([self.last] is still minus infinity). *)
Theorem acquire_zero_interval_noop (q : Q) (w : World) (n : nat) :
  q == 0 ->
  Limiter.acquire_times n (Limiter.__init__ (Fin q), w) =
    (inr (repeat NInf n), (Limiter.__init__ (Fin q), w)).
Proof.
  intro Hq.
  apply (acquire_times_disabled n (Limiter.__init__ (Fin q)) w).
  cbn. apply Qle_bool_iff. lra.
Qed.

Lemma acquire_zero_interval_noop_witness :
  Limiter.acquire_times 5 (Limiter.__init__ (Fin 0), mkWorld 7 [1; 1] []) =
    (inr (repeat NInf 5), (Limiter.__init__ (Fin 0), mkWorld 7 [1; 1] [])).
Proof.
  apply (acquire_zero_interval_noop 0 (mkWorld 7 [1; 1] []) 5).
  reflexivity.
Defined.

(** C10. With an interval that is zero or negative (minus infinity
    included), [__init__] replaces [acquire] by a function that does
    nothing: no call sleeps, reads the clock or changes [self.last]. *)
Theorem acquire_nonpositive_interval_noop (x : float) (w : World) (n : nat) :
  x = NInf \/ (exists q, x = Fin q /\ q <= 0) ->
  Limiter.acquire_attr (Limiter.__init__ x) = true /\
  Limiter.acquire_times n (Limiter.__init__ x, w) =
    (inr (repeat NInf n), (Limiter.__init__ x, w)).
Proof.
  intro Hx. apply leb_zero_true in Hx.
  split; [exact Hx|].
  apply (acquire_times_disabled n (Limiter.__init__ x) w). exact Hx.
Qed.

Lemma acquire_nonpositive_interval_noop_witness :
  Limiter.acquire_attr (Limiter.__init__ (Fin (-5 # 2))) = true /\
  Limiter.acquire_times 4 (Limiter.__init__ (Fin (-5 # 2)), mkWorld 0 [1] []) =
    (inr (repeat NInf 4), (Limiter.__init__ (Fin (-5 # 2)), mkWorld 0 [1] [])).
Proof.
  apply (acquire_nonpositive_interval_noop (Fin (-5 # 2)) (mkWorld 0 [1] []) 4).
  right. exists (-5 # 2). split; [reflexivity|].
  unfold Qle; simpl; lia.
Defined.

(** ** Validation *)

Lemma errors_of_ap {A B} (f : result (A -> B)) (a : result A) :
  errors_of (f <*> a) = errors_of f ++ errors_of a.
Proof.
  destruct f, a; simpl; auto using app_nil_r.
Qed.

Lemma errors_of_inl {A} (r : result A) (e : ErrorDetails) :
  In e (errors_of r) -> exists es, r = inl es /\ In e es.
Proof.
  destruct r as [es|a]; simpl; [|tauto]. intro H. now exists es.
Qed.

Lemma field_missing {A} (name : string) (v : validator A) (d : list (string * json)) :
  dict_get name d = None ->
  errors_of (field name v d) = [mkError missing [LKey name]].
Proof. unfold field. now intros ->. Qed.

Lemma field_has {A} (name : string) (v : validator A) (d : list (string * json))
    (P : json -> Prop) (a : A) :
  has d name P ->
  (forall j, P j -> v j = inr a) ->
  field name v d = inr a.
Proof.
  intros [j [Hj HP]] Hv. unfold field. rewrite Hj, (Hv j HP). reflexivity.
Qed.

Lemma validate_items_all {A} (v : validator A) (l : list json) (xs : list A) :
  Forall2 (fun j x => v j = inr x) l xs ->
  forall i, validate_items v i l = inr xs.
Proof.
  induction 1 as [|j x l xs Hj _ IH]; intro i; [reflexivity|].
  cbn [validate_items]. rewrite Hj, IH. reflexivity.
Qed.

Lemma v_optional_str (o : option string) (j : json) :
  opt_str o j -> v_optional v_str j = inr o.
Proof. destruct o; simpl; now intros ->. Qed.

Lemma v_literal_in (choices : list string) (s : string) :
  In s choices -> v_literal choices (JStr s) = inr s.
Proof.
  intro H. unfold v_literal.
  replace (existsb (String.eqb s) choices) with true; [reflexivity|].
  symmetry. apply existsb_exists. exists s. split; [exact H|apply String.eqb_refl].
Qed.

Lemma v_literal_not_in (choices : list string) (s : string) :
  ~ In s choices -> v_literal choices (JStr s) = fail literal_error.
Proof.
  intro H. unfold v_literal.
  destruct (existsb (String.eqb s) choices) eqn:E; [|reflexivity].
  apply existsb_exists in E. destruct E as [c [Hc Heq]].
  apply String.eqb_eq in Heq. subst c. contradiction.
Qed.

Ltac field_ok H :=
  erewrite field_has; [| exact H | cbv beta; intros ? <-; reflexivity].

Lemma validate_EditGETResponse `{Pydantic} (j : json) (x : EditGETResponse.t) :
  shape_EditGETResponse j x -> model_validate j = inr x.
Proof.
  intros [d [-> [H1 [H2 H3]]]]. cbn [model_validate EditGETResponse.model].
  field_ok H1. field_ok H2. field_ok H3. now destruct x.
Qed.

Lemma validate_EditPOSTBody (j : json) (x : EditPOSTBody.t) :
  shape_EditPOSTBody j x -> model_validate j = inr x.
Proof.
  intros [d [-> [H1 [H2 H3]]]]. cbn [model_validate EditPOSTBody.model].
  field_ok H1. field_ok H2. field_ok H3. now destruct x.
Qed.

Lemma validate_EditPOSTResponse `{Pydantic} (j : json) (x : EditPOSTResponse.t) :
  shape_EditPOSTResponse j x -> model_validate j = inr x.
Proof.
  intros [d [-> [H1 H2]]]. cbn [model_validate EditPOSTResponse.model].
  field_ok H1. field_ok H2. now destruct x.
Qed.

Lemma validate_Namespaces `{Pydantic} (j : json) (x : Namespaces.t) :
  shape_Namespaces j x -> model_validate j = inr x.
Proof.
  intros [d [-> [H1 H2]]]. cbn [model_validate Namespaces.model].
  field_ok H1. field_ok H2. now destruct x.
Qed.

Lemma validate_Backlinks (j : json) (x : Backlinks.t) :
  shape_Backlinks j x -> model_validate j = inr x.
Proof.
  intros [d [-> [H1 H2]]]. cbn [model_validate Backlinks.model].
  field_ok H1. field_ok H2. now destruct x.
Qed.

Lemma validate_BacklinkResponse `{Pydantic} (j : json) (x : BacklinkResponse.t) :
  shape_BacklinkResponse j x -> model_validate j = inr x.
Proof.
  intros [d [-> [H1 [H2 [H3 H4]]]]]. cbn [model_validate BacklinkResponse.model].
  erewrite field_has; [| exact H1 |].
  2:{ cbv beta. intros v [l [-> Hl]]. cbn [v_list].
      apply validate_items_all.
      exact (Forall2_impl _ (fun a b => validate_Namespaces a b) Hl). }
  erewrite field_has; [| exact H2 |].
  2:{ cbv beta. intros v [l [-> Hl]]. cbn [v_list].
      apply validate_items_all.
      exact (Forall2_impl _ (fun a b => validate_Backlinks a b) Hl). }
  erewrite field_has; [| exact H3 | apply v_optional_str].
  erewrite field_has; [| exact H4 | apply v_optional_str].
  now destruct x.
Qed.

Lemma validate_DiscussResponse `{Pydantic} (j : json) (x : DiscussResponse.t) :
  shape_DiscussResponse j x -> model_validate j = inr x.
Proof.
  intros [d [-> [H1 [H2 [H3 [H4 H5]]]]]]. cbn [model_validate DiscussResponse.model].
  field_ok H1. field_ok H2.
  erewrite field_has; [| exact H3 |].
  2:{ cbv beta. intros v Hv. unfold v_datetime. rewrite Hv. reflexivity. }
  erewrite field_has; [| exact H4 |].
  2:{ cbv beta. intros v <-. now apply v_literal_in. }
  now destruct x.
Qed.

(** C4. A payload that matches a schema of [schemas.py] structurally is
    validated, and the object that results has, in every field, the value the
    payload holds for it. *)
Theorem validate_matching_payload `{Pydantic} (T : Type) (B : BaseModel T)
    (shape : json -> T -> Prop) (j : json) (x : T) :
  schema T B shape ->
  shape j x ->
  @model_validate T B j = inr x.
Proof.
  intros HS Hj. destruct HS.
  - now apply validate_EditGETResponse.
  - now apply validate_EditPOSTBody.
  - now apply validate_EditPOSTResponse.
  - now apply validate_Namespaces.
  - now apply validate_Backlinks.
  - now apply validate_BacklinkResponse.
  - now apply validate_DiscussResponse.
Qed.

Lemma validate_matching_payload_witness :
  @model_validate EditGETResponse.t (@EditGETResponse.model plain_pydantic)
    (JDict [("text", JStr "hi"); ("exists", JBool true); ("token", JStr "t1")]%string) =
  inr (EditGETResponse.mk "hi" true "t1").
Proof.
  apply (@validate_matching_payload plain_pydantic EditGETResponse.t _
           shape_EditGETResponse).
  - constructor.
  - eexists. split; [reflexivity|].
    repeat split; eexists; (split; [reflexivity|reflexivity]).
Defined.

Lemma errors_raise {A} (r : result A) (e : ErrorDetails) :
  In e (errors_of r) ->
  exists es,
    r = inl es /\ In e es /\
    forall (S : Type) (s : S), validate_or_raise r s = (inl (ValidationError es), s).
Proof.
  intro H. destruct (errors_of_inl r e H) as [es [-> Hin]].
  exists es. repeat split; assumption.
Qed.

Ltac missing_case Hd :=
  apply errors_raise;
  cbn [model_validate EditGETResponse.model EditPOSTBody.model
       EditPOSTResponse.model Namespaces.model Backlinks.model
       BacklinkResponse.model DiscussResponse.model];
  rewrite !errors_of_ap, (field_missing _ _ _ Hd), !in_app_iff;
  cbn [In]; auto 10.

(** C6. Whatever the schema, when the payload is a JSON object that lacks
    the key of one of the declared fields, validation fails, a
    [ValidationError] is raised, and its list of errors has an entry of type
    [missing] whose location is the name of that field. *)
Theorem missing_field_is_named `{Pydantic} (T : Type) (B : BaseModel T)
    (shape : json -> T -> Prop) (f : string) (d : list (string * json)) :
  schema T B shape ->
  In f (@model_fields T B) ->
  dict_get f d = None ->
  exists es,
    @model_validate T B (JDict d) = inl es /\
    In (mkError missing [LKey f]) es /\
    forall (S : Type) (s : S),
      validate_or_raise (@model_validate T B (JDict d)) s = (inl (ValidationError es), s).
Proof.
  intros HS Hf Hd.
  destruct HS; cbn [model_fields EditGETResponse.model EditPOSTBody.model
    EditPOSTResponse.model Namespaces.model Backlinks.model
    BacklinkResponse.model DiscussResponse.model In] in Hf;
    repeat (destruct Hf as [<-|Hf]; [missing_case Hd|]); contradiction.
Qed.

Lemma missing_field_is_named_witness :
  exists es,
    @model_validate EditGETResponse.t (@EditGETResponse.model plain_pydantic)
      (JDict [("text", JStr "hi"); ("exists", JBool true)]%string) = inl es /\
    In (mkError missing [LKey "token"]) es /\
    forall (S : Type) (s : S),
      validate_or_raise
        (@model_validate EditGETResponse.t (@EditGETResponse.model plain_pydantic)
           (JDict [("text", JStr "hi"); ("exists", JBool true)]%string)) s =
      (inl (ValidationError es), s).
Proof.
  apply (@missing_field_is_named plain_pydantic EditGETResponse.t _
           shape_EditGETResponse "token").
  - constructor.
  - simpl. auto.
  - reflexivity.
Defined.

(** C5. [BacklinkResponse] on payloads with and without [from] and [until]. A payload with
    [from] and [until] null is refused: the schema looks for the key [fromm],
    and [from] is a key it does not know. A payload without the two keys is
    refused for both fields. With the keys [fromm] and [until] present and
    null, the payload is accepted and both fields are [None]; without
    [namespaces] or [backlinks] it is refused. *)
Theorem backlink_response_keys_required `{Pydantic} :
  model_validate (T := BacklinkResponse.t)
    (JDict [("namespaces", JList []); ("backlinks", JList []);
            ("from", JNull); ("until", JNull)]%string) =
    inl [mkError missing [LKey "fromm"]] /\
  model_validate (T := BacklinkResponse.t)
    (JDict [("namespaces", JList []); ("backlinks", JList [])]%string) =
    inl [mkError missing [LKey "fromm"]; mkError missing [LKey "until"]] /\
  model_validate (T := BacklinkResponse.t)
    (JDict [("namespaces", JList []); ("backlinks", JList []);
            ("fromm", JNull); ("until", JNull)]%string) =
    inr (BacklinkResponse.mk [] [] None None) /\
  model_validate (T := BacklinkResponse.t)
    (JDict [("fromm", JNull); ("until", JNull)]%string) =
    inl [mkError missing [LKey "namespaces"]; mkError missing [LKey "backlinks"]].
Proof. repeat split. Qed.

(** ** The client *)

(** What [with self.limiter, self.session.<method>(...) as response] does
    up to [response.json()], once the limiter has let the call through, when
    no [json] argument is given. *)
Lemma checked_json_eq `{Runtime} (m : Method) (u : string)
    (params : list (string * option param_value))
    (self : TheSeedAPIClient.t) (w w1 : World) (l1 : Limiter.t) :
  Limiter.acquire (TheSeedAPIClient.limiter self, w) = (inr tt, (l1, w1)) ->
  TheSeedAPIClient.checked_json m u params None (self, w) =
    let r := mkRequest m u (encode_params params) None
               (TheSeedAPIClient.session_headers self) in
    let s2 := (with_limiter self l1, log (EvSend r) w1) in
    match http_send r with
    | inl e => (inl e, s2)
    | inr resp =>
        if is_error_status resp then (inl (HTTPError resp), s2)
        else
          match json_loads (text resp) with
          | Some j => (inr j, (fst s2, log EvJson (snd s2)))
          | None => (inl JSONDecodeError, (fst s2, log EvJson (snd s2)))
          end
    end.
Proof.
  intro Hacq.
  unfold TheSeedAPIClient.checked_json, bind at 1, get_self at 1. cbn [fst snd].
  unfold bind at 1, TheSeedAPIClient.on_limiter, Limiter.__enter__. cbn [fst snd].
  rewrite Hacq. fold (with_limiter self l1).
  unfold session_request, bind at 1, bind at 1, emit. cbn [fst snd].
  cbv zeta.
  destruct (http_send _) as [e|resp]; [reflexivity|].
  unfold ret at 1. unfold bind at 1, raise_for_status.
  destruct (is_error_status resp); [reflexivity|].
  unfold ret at 1, response_json, bind, emit. cbn [fst snd].
  destruct (json_loads (text resp)); reflexivity.
Qed.

Lemma is_error_status_true (resp : Response) :
  is_error_status resp = true <-> (400 <= status_code resp < 600)%Z.
Proof. unfold is_error_status. lia. Qed.

(** With a pydantic model as [json] argument: [TypeError] once the limiter
    has let the call through, and nothing else. *)
Lemma checked_json_post `{Runtime} (m : Method) (u : string)
    (params : list (string * option param_value)) (body : EditPOSTBody.t)
    (self : TheSeedAPIClient.t) (w w1 : World) (l1 : Limiter.t) :
  Limiter.acquire (TheSeedAPIClient.limiter self, w) = (inr tt, (l1, w1)) ->
  TheSeedAPIClient.checked_json m u params (Some body) (self, w) =
    (inl TypeError, (with_limiter self l1, w1)).
Proof.
  intro Hacq.
  unfold TheSeedAPIClient.checked_json, bind at 1, get_self at 1. cbn [fst snd].
  unfold bind at 1, TheSeedAPIClient.on_limiter, Limiter.__enter__. cbn [fst snd].
  rewrite Hacq. reflexivity.
Qed.

Ltac run_checked Hacq :=
  unfold bind at 1, get_self at 1; cbn [fst snd];
  unfold bind at 1; rewrite (checked_json_eq _ _ _ _ _ _ _ Hacq); cbv zeta.

(** C3 (amended). [edit_get], [backlink] and [discuss]: when the call of
    [session.get] returns a response with a client-error or server-error
    status (400 to 599), the operation raises the [HTTPError] of
    [raise_for_status], which holds the response (status code and raw body);
    nothing follows the call of the session in the trace: the body is neither
    decoded nor validated, and no result is returned. *)
Theorem http_error_before_validation `{Runtime} `{Pydantic} (op : operation)
    (self : TheSeedAPIClient.t) (w w1 : World) (l1 : Limiter.t) (resp : Response) :
  is_get op ->
  Limiter.acquire (TheSeedAPIClient.limiter self, w) = (inr tt, (l1, w1)) ->
  http_send (request_of self op) = inr resp ->
  (400 <= status_code resp < 600)%Z ->
  call op (self, w) =
    (inl (HTTPError resp),
     (with_limiter self l1, log (EvSend (request_of self op)) w1)).
Proof.
  intros Hget Hacq Hsend Hst. apply is_error_status_true in Hst.
  destruct op; cbn [request_of] in Hsend; try contradiction;
    unfold call, bind at 1;
    [ unfold TheSeedAPIClient.edit_get
    | unfold TheSeedAPIClient.backlink
    | unfold TheSeedAPIClient.discuss ];
    run_checked Hacq; cbn [encode_params] in *; rewrite Hsend, Hst; reflexivity.
Qed.

Lemma http_error_before_validation_witness :
  let R := server 404 "not found" JNull in
  let self := TheSeedAPIClient.__init__ "https://wiki.example/w/" "token" None in
  let w := mkWorld 0 [] [] in
  @call R plain_pydantic (op_discuss "Main") (self, w) =
    (inl (HTTPError (mkResponse 404 "not found")),
     (with_limiter self (TheSeedAPIClient.limiter self),
      log (EvSend (request_of self (op_discuss "Main"))) w)).
Proof.
  intros R self w.
  apply (@http_error_before_validation R plain_pydantic (op_discuss "Main")
           self w w (TheSeedAPIClient.limiter self) (mkResponse 404 "not found")).
  - exact I.
  - reflexivity.
  - reflexivity.
  - simpl. lia.
Defined.

(** C3, as stated, fails: a response with status 300 is not a 2xx response,
    yet [raise_for_status] lets it pass, the body is decoded and validated,
    and [edit_get] returns the validated object. *)
Lemma non_2xx_response_validated :
  ~ raises_for_every_non_2xx (server 300 hi_body hi_json) plain_pydantic.
Proof.
  intro Hc.
  pose (self := @TheSeedAPIClient.__init__ (server 300 hi_body hi_json)
                  "https://wiki.example/w/" "token" None).
  specialize (Hc (op_edit_get "Main") self (mkWorld 0 [] []) (mkWorld 0 [] [])
                (TheSeedAPIClient.limiter self) (mkResponse 300 hi_body)
                eq_refl eq_refl).
  assert (Hst : ~ (200 <= status_code (mkResponse 300 hi_body) < 300)%Z)
    by (simpl; lia).
  specialize (Hc Hst). vm_compute in Hc. discriminate Hc.
Qed.

Lemma sent_elapse (w : World) : sent (elapse w) = sent w.
Proof. unfold sent. now rewrite elapse_trace. Qed.

Lemma quiet_bind {S A B} (m : M (S * World) A) (k : A -> M (S * World) B) :
  quiet m -> (forall a, quiet (k a)) -> quiet (bind m k).
Proof.
  intros Hm Hk s r s'. unfold bind.
  destruct (m s) as [[e|a] s1] eqn:E; intro Hr.
  - injection Hr as _ <-. exact (Hm _ _ _ E).
  - rewrite (Hk a _ _ _ Hr). exact (Hm _ _ _ E).
Qed.

Lemma quiet_ret {S A} (a : A) : quiet (S := S) (ret a).
Proof. intros s r s' E. injection E as _ <-. reflexivity. Qed.

Lemma quiet_raise {S A} (e : exn) : quiet (S := S) (A := A) (raise e).
Proof. intros s r s' E. injection E as _ <-. reflexivity. Qed.

Lemma quiet_get_self {S} : quiet (S := S) get_self.
Proof. intros s r s' E. injection E as _ <-. reflexivity. Qed.

Lemma quiet_put_self {S} (x : S) : quiet (put_self x).
Proof. intros s r s' E. injection E as _ <-. reflexivity. Qed.

Lemma quiet_monotonic {S} : quiet (S := S) time_monotonic.
Proof.
  intros s r s' E. injection E as _ <-. cbn [snd].
  unfold sent, log. cbn [trace flat_map app]. apply sent_elapse.
Qed.

Lemma quiet_sleep {S} (secs : float) : quiet (S := S) (time_sleep secs).
Proof.
  unfold time_sleep. destruct (sleep_arg secs) as [e|d]; [apply quiet_raise|].
  intros s r s' E. injection E as _ <-. cbn [snd].
  unfold sent, log. cbn [trace flat_map app].
  now rewrite elapse_trace.
Qed.

(** The limiter sends nothing. *)
Lemma acquire_sent (l l' : Limiter.t) (w w' : World) (r : exn + unit) :
  Limiter.acquire (l, w) = (r, (l', w')) -> sent w' = sent w.
Proof.
  assert (Hq : quiet Limiter.acquire).
  { unfold Limiter.acquire, Limiter.acquire_method, Limiter.set_last.
    repeat first
      [ apply quiet_bind; [|intro]
      | apply quiet_get_self | apply quiet_monotonic | apply quiet_sleep
      | apply quiet_put_self | apply quiet_ret
      | match goal with |- quiet (if ?b then _ else _) => destruct b end ]. }
  intro E. exact (Hq _ _ _ E).
Qed.

(** A parameter is in the query exactly when a value was supplied for it. *)
Lemma encode_params_supplied (params : list (string * option param_value))
    (k : string) (v : param_value) :
  In (k, v) (encode_params params) <-> In (k, Some v) params.
Proof.
  induction params as [|[k' [v'|]] ps IH]; simpl.
  - tauto.
  - rewrite IH. split; intros [E|E]; auto; left; congruence.
  - rewrite IH. split; [auto|]. intros [E|E]; [discriminate|assumption].
Qed.

Lemma after_absent (c : ascii) (s : string) :
  contains c s = false -> after c s = None.
Proof.
  induction s as [|x s IH]; [reflexivity|]. cbn.
  destruct (Ascii.eqb x c); [discriminate|]. exact IH.
Qed.

Lemma contains_before (c c' : ascii) (s : string) :
  contains c s = false -> contains c (before c' s) = false.
Proof.
  induction s as [|x s IH]; [reflexivity|]. cbn.
  destruct (Ascii.eqb x c) eqn:E; [discriminate|]. cbn. intro Hs.
  destruct (Ascii.eqb x c'); [reflexivity|]. cbn. rewrite E. now apply IH.
Qed.

Lemma contains_append (c : ascii) (a b : string) :
  contains c (a ++ b) = contains c a || contains c b.
Proof.
  induction a as [|x a IH]; [reflexivity|]. cbn. now rewrite IH, orb_assoc.
Qed.

(** A URL without [?] has no query of its own. *)
Lemma url_params_absent (u : string) :
  contains "?" u = false -> url_params u = [].
Proof.
  intro Hu. unfold url_params, url_query.
  now rewrite (after_absent _ _ (contains_before _ "#" _ Hu)).
Qed.

(** C7 (amended). [backlink] called with a document only, when neither
    the base URL nor the document holds a [?]: the request is a GET on the
    backlink URL of the document and the query that leaves with it is empty;
    none of [namespace], [flag], [from], [until] is sent. *)
Theorem backlink_omits_unset_params `{Runtime} `{Pydantic} (document : string)
    (self : TheSeedAPIClient.t) (w w1 : World) (l1 : Limiter.t) :
  contains "?" (TheSeedAPIClient.base_url self) = false ->
  contains "?" document = false ->
  Limiter.acquire (TheSeedAPIClient.limiter self, w) = (inr tt, (l1, w1)) ->
  exists r,
    sent (snd (snd (TheSeedAPIClient.backlink document None None None None (self, w)))) =
      r :: sent w /\
    method r = GET /\
    url r = (TheSeedAPIClient.base_url self ++ "/backlink/" ++ document)%string /\
    outgoing_query r = [] /\
    forall k, ~ In k (map fst (outgoing_query r)).
Proof.
  intros Hbase Hdoc Hacq.
  exists (mkRequest GET (TheSeedAPIClient.base_url self ++ "/backlink/" ++ document)
            [] None (TheSeedAPIClient.session_headers self)).
  assert (Hq : outgoing_query
                 (mkRequest GET
                    (TheSeedAPIClient.base_url self ++ "/backlink/" ++ document)
                    [] None (TheSeedAPIClient.session_headers self)) = []).
  { unfold outgoing_query. cbn [url query]. rewrite url_params_absent; [reflexivity|].
    rewrite !contains_append, Hbase, Hdoc. reflexivity. }
  split; [|repeat split; auto; rewrite Hq; auto].
  rewrite <- (acquire_sent _ _ _ _ _ Hacq).
  unfold TheSeedAPIClient.backlink. run_checked Hacq.
  cbn [option_map encode_params].
  destruct (http_send _) as [e|resp]; [reflexivity|].
  destruct (is_error_status resp); [reflexivity|].
  destruct (json_loads (text resp)) as [j|]; [|reflexivity].
  unfold call_model_validate, bind, emit. cbn [fst snd].
  destruct (model_validate j); reflexivity.
Qed.

Lemma backlink_omits_unset_params_witness :
  let R := server 200 hi_body hi_json in
  let self := TheSeedAPIClient.__init__ "https://wiki.example/w" "token" None in
  let w := mkWorld 0 [] [] in
  exists r,
    sent (snd (snd (@TheSeedAPIClient.backlink R plain_pydantic "Main"
                      None None None None (self, w)))) = r :: sent w /\
    method r = GET /\
    url r = (TheSeedAPIClient.base_url self ++ "/backlink/" ++ "Main")%string /\
    outgoing_query r = [] /\
    forall k, ~ In k (map fst (outgoing_query r)).
Proof.
  intros R self w.
  apply (@backlink_omits_unset_params R plain_pydantic "Main" self w w
           (TheSeedAPIClient.limiter self)).
  - reflexivity.
  - reflexivity.
  - reflexivity.
Defined.

(** C7, as stated, fails: the document is put in the URL as it is, and a
    document that holds a query brings its parameters with it. With the
    document [A?from=B] and no argument, the request that is sent has the
    parameter [from]. *)
Lemma backlink_document_with_query :
  ~ omits_unset_params (server 200 hi_body hi_json) plain_pydantic.
Proof.
  intro Hc.
  pose (self := @TheSeedAPIClient.__init__ (server 200 hi_body hi_json)
                  "https://wiki.example/w" "token" None).
  apply (Hc "A?from=B"%string self (mkWorld 0 [] []) (mkWorld 0 [] [])
           (TheSeedAPIClient.limiter self)
           (mkRequest GET "https://wiki.example/w/backlink/A?from=B" [] None
              (TheSeedAPIClient.session_headers self))
           "from"%string).
  - reflexivity.
  - reflexivity.
  - cbn. auto.
  - cbn. auto.
Qed.

(** ** Discussions *)

Lemma validate_each_fails `{Pydantic} (items : list json) :
  Exists (fun item => exists es,
            model_validate (T := DiscussResponse.t) item = inl es) items ->
  forall s, exists es s',
    TheSeedAPIClient.validate_each DiscussResponse.t items s =
      (inl (ValidationError es), s').
Proof.
  induction items as [|item rest IH]; intros HE s; [inversion HE|].
  cbn [TheSeedAPIClient.validate_each].
  unfold bind at 1, call_model_validate, bind at 1, emit. cbn [fst snd].
  destruct (model_validate item) as [es|x] eqn:E.
  - eexists. eexists. reflexivity.
  - cbn [validate_or_raise]. unfold ret at 1.
    assert (HE' : Exists (fun item => exists es,
                     model_validate (T := DiscussResponse.t) item = inl es) rest).
    { inversion HE as [? ? [es Hes]|]; subst; [congruence|assumption]. }
    destruct (IH HE' (fst s, log EvValidate (snd s))) as [es [s' Hr]].
    unfold bind at 1. rewrite Hr. eexists. eexists. reflexivity.
Qed.

(** C8. The status of a discussion is one of ["normal"], ["close"],
    ["pause"]: a payload whose status is another string is refused, with an
    error of type [literal_error] at [status]; with one of the three (and the
    other fields valid) it is accepted and the status kept. In [discuss], as
    soon as one element of the list is refused the call raises the
    [ValidationError]: it returns no list. *)
Theorem discuss_status_closed_set `{Runtime} `{Pydantic} :
  (forall d s,
     dict_get "status" d = Some (JStr s) ->
     ~ In s ["normal"; "close"; "pause"]%string ->
     exists es,
       model_validate (T := DiscussResponse.t) (JDict d) = inl es /\
       In (mkError literal_error [LKey "status"]) es) /\
  (forall d s a b t,
     dict_get "status" d = Some (JStr s) ->
     In s ["normal"; "close"; "pause"]%string ->
     dict_get "slug" d = Some (JStr a) ->
     dict_get "topic" d = Some (JStr b) ->
     has d "updated_date" (fun v => datetime_validate v = Some t) ->
     model_validate (JDict d) = inr (DiscussResponse.mk a b t s)) /\
  (forall document self w w1 l1 resp items,
     Limiter.acquire (TheSeedAPIClient.limiter self, w) = (inr tt, (l1, w1)) ->
     http_send (request_of self (op_discuss document)) = inr resp ->
     is_error_status resp = false ->
     json_loads (text resp) = Some (JList items) ->
     Exists (fun item => exists es,
               model_validate (T := DiscussResponse.t) item = inl es) items ->
     exists es s',
       TheSeedAPIClient.discuss document (self, w) = (inl (ValidationError es), s')).
Proof.
  split; [|split].
  - intros d s Hd Hs.
    destruct (errors_of_inl
                (model_validate (T := DiscussResponse.t) (JDict d))
                (mkError literal_error [LKey "status"])) as [es Hes];
      [|now exists es].
    cbn [model_validate DiscussResponse.model].
    rewrite !errors_of_ap, !in_app_iff. right.
    unfold field at 1. rewrite Hd.
    rewrite (v_literal_not_in DiscussResponse.status_values s Hs).
    simpl. auto.
  - intros d s a b t Hd Hs Ha Hb Ht.
    apply (validate_DiscussResponse (JDict d) (DiscussResponse.mk a b t s)).
    exists d. split; [reflexivity|].
    repeat split; try exact Ht; try exact Hs; eexists; (split; [eassumption|reflexivity]).
  - intros document self w w1 l1 resp items Hacq Hsend Hst Hj HE.
    cbn [request_of] in Hsend.
    unfold TheSeedAPIClient.discuss. run_checked Hacq.
    cbn [encode_params]. rewrite Hsend, Hst, Hj.
    unfold bind at 1, py_iter, ret at 1.
    apply (validate_each_fails items HE).
Qed.

Lemma discuss_status_closed_set_witness :
  let R := server 200 archived_body archived_json in
  let self := TheSeedAPIClient.__init__ "https://wiki.example/w" "token" None in
  (exists es,
     @model_validate _ (@DiscussResponse.model plain_pydantic) (JDict archived_item) =
       inl es /\
     In (mkError literal_error [LKey "status"]) es) /\
  (exists es s',
     @TheSeedAPIClient.discuss R plain_pydantic "Main" (self, mkWorld 0 [] []) =
       (inl (ValidationError es), s')).
Proof.
  intros R self.
  destruct (@discuss_status_closed_set R plain_pydantic) as [H1 [_ H3]].
  split.
  - apply (H1 archived_item "archived"%string).
    + reflexivity.
    + simpl. intros [E|[E|[E|[]]]]; discriminate E.
  - apply (H3 "Main"%string self (mkWorld 0 [] []) (mkWorld 0 [] [])
             (TheSeedAPIClient.limiter self) (mkResponse 200 archived_body)
             [JDict [("slug", JStr "a"); ("topic", JStr "A");
                     ("updated_date", JInt 1700000000); ("status", JStr "normal")]%string;
              JDict archived_item]).
    + reflexivity.
    + reflexivity.
    + reflexivity.
    + reflexivity.
    + apply Exists_cons_tl, Exists_cons_hd.
      eexists. vm_compute. reflexivity.
Defined.

(** ** Threads *)














(** Why the calls have to be serialised, and not only the two that are
    compared: a third thread that was suspended between its reading of the
    clock and its store writes an old time over [self.last]; a call that
    starts after another has returned then returns half a second after it. *)
Lemma stale_store_breaks_spacing :
  exists c,
    Threads.run stale_store (Threads.start (Limiter.__init__ (Fin 1)) 0 3) = Some c /\
    nth_error (Threads.threads c) 0 = Some (Threads.Returned 10) /\
    nth_error (Threads.threads c) 1 = Some (Threads.Returned (21 # 2)) /\
    ~ Threads.spaced_returns 1 c.
Proof.
  eexists. split; [vm_compute; reflexivity|]. split; [reflexivity|].
  split; [reflexivity|]. intro Hc.
  destruct (Hc 0%nat 1%nat 10 (21 # 2)) as [H|H];
    try discriminate; try reflexivity; revert H; unfold Qle; simpl; lia.
Qed.


(** * More of the code *)

(** ** The limiter: what [acquire] asks [time.sleep] for *)

(** X1. On a fresh limiter with a finite interval [i > 0] and a clock that
    only goes forward, every sleep of [n] calls of [acquire()] in a row is
    between zero and [i]: a caller is never made to wait longer than the
    interval. There is one sleep per call as long as [time.sleep] accepts [i]
    seconds. *)
Theorem acquire_sleeps_bounded (i : Q) (w : World) (n : nat) :
  0 < i ->
  nonneg (delays w) ->
  exists ds,
    sleeps (snd (snd (Limiter.acquire_times n (Limiter.__init__ (Fin i), w)))) =
      ds ++ sleeps w /\
    (List.length ds <= n)%nat /\
    Forall (fun d => 0 <= d /\ d <= i) ds /\
    (fits i -> List.length ds = n).
Proof.
  intros Hi Hw.
  assert (Ha : Limiter.acquire_attr (Limiter.__init__ (Fin i)) = false).
  { cbn. now apply Qle_bool_false. }
  assert (Hi0 : 0 <= i) by lra.
  destruct (acquire_times_run i n Hi0 (Limiter.__init__ (Fin i)) w
              eq_refl Ha (or_introl eq_refl) Hw)
    as [r [l' [w' [ds [E [Hs [HF Hout]]]]]]].
  exists ds. rewrite E. cbn [snd]. split; [exact Hs|].
  destruct Hout as [[ts [evs [_ [_ [Hlen _]]]]]|[_ [Hnf Hlt]]].
  - repeat split; auto; lia.
  - repeat split; auto; [lia|]. intro Hfit. contradiction.
Qed.

Lemma acquire_sleeps_bounded_witness :
  exists ds,
    sleeps (snd (snd (Limiter.acquire_times 3
                        (Limiter.__init__ (Fin 1), mkWorld 0 [1 # 4; 0; 2; 1 # 3] [])))) =
      ds ++ sleeps (mkWorld 0 [1 # 4; 0; 2; 1 # 3] []) /\
    (List.length ds <= 3)%nat /\
    Forall (fun d => 0 <= d /\ d <= 1) ds /\
    (fits 1 -> List.length ds = 3%nat).
Proof.
  apply (acquire_sleeps_bounded 1 (mkWorld 0 [1 # 4; 0; 2; 1 # 3] []) 3).
  - reflexivity.
  - unfold nonneg. cbn [delays].
    repeat constructor; unfold Qle; simpl; lia.
Defined.



(** ** The client: what an operation does to the world *)

Lemma world_eta (w : World) : mkWorld (clock w) (delays w) (trace w) = w.
Proof. now destruct w. Qed.

Lemma only_logs_ret {S A} (a : A) : only_logs (S := S) (ret a).
Proof.
  intros [x w] r s' E. injection E as _ <-. exists []. split; [|constructor].
  cbn. now rewrite world_eta.
Qed.

Lemma only_logs_raise {S A} (e : exn) : only_logs (S := S) (A := A) (raise e).
Proof.
  intros [x w] r s' E. injection E as _ <-. exists []. split; [|constructor].
  cbn. now rewrite world_eta.
Qed.

Lemma only_logs_bind {S A B} (m : M (S * World) A) (k : A -> M (S * World) B) :
  only_logs m -> (forall a, only_logs (k a)) -> only_logs (bind m k).
Proof.
  intros Hm Hk s r s'. unfold bind.
  destruct (m s) as [[e|a] s1] eqn:E; intro Hr.
  - injection Hr as _ <-. exact (Hm _ _ _ E).
  - destruct (Hm _ _ _ E) as [evs1 [-> H1]].
    destruct (Hk a _ _ _ Hr) as [evs2 [-> H2]].
    exists (evs2 ++ evs1). split; [|now apply Forall_app].
    cbn. now rewrite app_assoc.
Qed.

Lemma only_logs_emit {S} (e : event) :
  body_event e -> only_logs (S := S) (emit e).
Proof.
  intros He [x w] r s' E. injection E as _ <-. exists [e].
  split; [reflexivity|]. now constructor.
Qed.

Lemma only_logs_validate {S} (T : Type) `{BaseModel T} (j : json) :
  only_logs (S := S) (call_model_validate T j).
Proof.
  unfold call_model_validate. apply only_logs_bind.
  - apply only_logs_emit. now right.
  - intros _. destruct (model_validate j); [apply only_logs_raise|apply only_logs_ret].
Qed.

Lemma only_logs_validate_each (T : Type) `{BaseModel T} (items : list json) :
  only_logs (TheSeedAPIClient.validate_each T items).
Proof.
  induction items as [|item rest IH]; cbn [TheSeedAPIClient.validate_each].
  - apply only_logs_ret.
  - apply only_logs_bind; [apply only_logs_validate|intro x].
    apply only_logs_bind; [exact IH|intro xs]. apply only_logs_ret.
Qed.

Lemma only_logs_py_iter {S} (j : json) : only_logs (S := S) (py_iter j).
Proof.
  destruct j; first [apply only_logs_ret | apply only_logs_raise].
Qed.

Lemma snd_bind_ret {S A B} (m : M S A) (g : A -> B) (s : S) :
  snd (bind m (fun a => ret (g a)) s) = snd (m s).
Proof. unfold bind, ret. now destruct (m s) as [[e|a] s1]. Qed.

(** After the limiter, with no [json] argument: the call of the session is
    in the trace, then only events of decoding and validating. *)
Lemma checked_json_then `{Runtime} {A} (k : json -> M (TheSeedAPIClient.t * World) A)
    (m : Method) (u : string) (params : list (string * option param_value))
    (self : TheSeedAPIClient.t) (w w1 : World) (l1 : Limiter.t) :
  (forall j, only_logs (k j)) ->
  Limiter.acquire (TheSeedAPIClient.limiter self, w) = (inr tt, (l1, w1)) ->
  exists evs,
    snd (bind (TheSeedAPIClient.checked_json m u params None) k (self, w)) =
      (with_limiter self l1,
       mkWorld (clock w1) (delays w1)
         (evs ++ EvSend (mkRequest m u (encode_params params) None
                           (TheSeedAPIClient.session_headers self)) :: trace w1)) /\
    Forall body_event evs.
Proof.
  intros Hk Hacq. unfold bind. rewrite (checked_json_eq _ _ _ _ _ _ _ Hacq).
  cbv zeta.
  destruct (http_send _) as [e|resp].
  { exists []. split; [reflexivity|constructor]. }
  destruct (is_error_status resp).
  { exists []. split; [reflexivity|constructor]. }
  destruct (json_loads (text resp)) as [j|].
  2:{ exists [EvJson]. split; [reflexivity|]. constructor; [now left|constructor]. }
  cbn [fst snd].
  destruct (k j _) as [r s'] eqn:E.
  destruct (Hk j _ _ _ E) as [evs [-> Hevs]].
  exists (evs ++ [EvJson]). split.
  - cbn. now rewrite <- app_assoc.
  - apply Forall_app. split; [exact Hevs|]. constructor; [now left|constructor].
Qed.

(** The state after [edit_get], [backlink] or [discuss]. *)
Lemma call_get_state `{Runtime} `{Pydantic} (op : operation)
    (self : TheSeedAPIClient.t) (w w1 : World) (l1 : Limiter.t) :
  is_get op ->
  Limiter.acquire (TheSeedAPIClient.limiter self, w) = (inr tt, (l1, w1)) ->
  exists evs,
    snd (call op (self, w)) =
      (with_limiter self l1,
       mkWorld (clock w1) (delays w1) (evs ++ EvSend (request_of self op) :: trace w1)) /\
    Forall body_event evs.
Proof.
  intros Hget Hacq.
  destruct op; try contradiction; unfold call; rewrite snd_bind_ret;
    [ unfold TheSeedAPIClient.edit_get
    | unfold TheSeedAPIClient.backlink
    | unfold TheSeedAPIClient.discuss ];
    unfold bind at 1, get_self at 1; cbn [fst snd request_of];
    apply checked_json_then; try exact Hacq; intro j;
    try apply only_logs_validate.
  apply only_logs_bind; [apply only_logs_py_iter|intro items].
  apply only_logs_validate_each.
Qed.

(** [edit_post]: the body cannot be serialised, and the call ends there. *)
Lemma call_edit_post `{Runtime} `{Pydantic} (document : string) (body : EditPOSTBody.t)
    (self : TheSeedAPIClient.t) (w w1 : World) (l1 : Limiter.t) :
  Limiter.acquire (TheSeedAPIClient.limiter self, w) = (inr tt, (l1, w1)) ->
  call (op_edit_post document body) (self, w) =
    (inl TypeError, (with_limiter self l1, w1)).
Proof.
  intro Hacq. unfold call, bind at 1, TheSeedAPIClient.edit_post.
  unfold bind at 1, get_self at 1. cbn [fst snd].
  unfold bind at 1. rewrite (checked_json_post _ _ _ _ _ _ _ _ Hacq). reflexivity.
Qed.

Lemma sent_body_events (evs : list event) (r : Request) (c : Q) (ds : list Q)
    (tr : list event) :
  Forall body_event evs ->
  sent (mkWorld c ds (evs ++ EvSend r :: tr)) = r :: sent (mkWorld c ds tr).
Proof.
  unfold sent. cbn [trace]. induction 1 as [|e evs [->| ->] _ IH]; [reflexivity| |];
    cbn [app flat_map]; exact IH.
Qed.

(** What [edit_get], [backlink] and [discuss] add to the calls of the
    session. *)
Lemma call_get_sent `{Runtime} `{Pydantic} (op : operation)
    (self : TheSeedAPIClient.t) (w w1 : World) (l1 : Limiter.t) :
  is_get op ->
  Limiter.acquire (TheSeedAPIClient.limiter self, w) = (inr tt, (l1, w1)) ->
  sent (snd (snd (call op (self, w)))) = request_of self op :: sent w.
Proof.
  intros Hget Hacq.
  destruct (call_get_state op self w w1 l1 Hget Hacq) as [evs [E Hevs]].
  rewrite E. cbn [snd]. rewrite (sent_body_events _ _ _ _ _ Hevs).
  rewrite <- (acquire_sent _ _ _ _ _ Hacq). unfold sent. reflexivity.
Qed.

(** X4. Once the limiter has let it through, [edit_get], [backlink] and
    [discuss] call [session.get] exactly once, whatever happens next
    (transport error, error status, undecodable body, refused payload or
    success): with the URL string of the operation under the base URL, no
    [json] argument, and the headers of the session. [edit_post] hands its
    [EditPOSTBody] to [session.post] as [json]; the body cannot be
    serialised, the call raises [TypeError] and nothing is sent. The
    statement counts calls of the session and what they are handed, not what
    requests then puts on the wire. *)
Theorem session_called_once `{Runtime} `{Pydantic} (op : operation)
    (self : TheSeedAPIClient.t) (w w1 : World) (l1 : Limiter.t) :
  Limiter.acquire (TheSeedAPIClient.limiter self, w) = (inr tt, (l1, w1)) ->
  let after := snd (snd (call op (self, w))) in
  let get_on (u : string) :=
    exists r, sent after = r :: sent w /\
              method r = GET /\ url r = u /\ json_body r = None /\
              headers r = TheSeedAPIClient.session_headers self in
  match op with
  | op_edit_get document =>
      get_on (TheSeedAPIClient.base_url self ++ "/edit/" ++ document)%string
  | op_edit_post document body =>
      call op (self, w) = (inl TypeError, (with_limiter self l1, w1)) /\
      sent after = sent w
  | op_backlink document _ _ _ _ =>
      get_on (TheSeedAPIClient.base_url self ++ "/backlink/" ++ document)%string
  | op_discuss document =>
      get_on (TheSeedAPIClient.base_url self ++ "/discuss/" ++ document)%string
  end.
Proof.
  intros Hacq. cbv zeta.
  destruct op as [document|document body|document ns fl fr un|document].
  2:{ rewrite (call_edit_post _ _ _ _ _ _ Hacq). split; [reflexivity|].
      cbn [snd]. exact (acquire_sent _ _ _ _ _ Hacq). }
  all: eexists; split;
    [ match goal with
      | |- context [call ?op _] => exact (call_get_sent op self w w1 l1 I Hacq)
      end
    | repeat split ].
Qed.

Lemma session_called_once_witness :
  let R := server 200 hi_body hi_json in
  let self := TheSeedAPIClient.__init__ "https://wiki.example/w" "token" None in
  let w := mkWorld 0 [] [] in
  let body := EditPOSTBody.mk "hi" "log" "t1" in
  @call R plain_pydantic (op_edit_post "Main" body) (self, w) =
    (inl TypeError, (with_limiter self (TheSeedAPIClient.limiter self), w)) /\
  sent (snd (snd (@call R plain_pydantic (op_edit_post "Main" body) (self, w)))) =
    sent w.
Proof.
  intros R self w body.
  apply (@session_called_once R plain_pydantic (op_edit_post "Main" body) self w w
           (TheSeedAPIClient.limiter self)).
  reflexivity.
Defined.

Lemma checked_json_limiter_raises `{Runtime} (m : Method) (u : string)
    (params : list (string * option param_value)) (body : option EditPOSTBody.t)
    (self : TheSeedAPIClient.t) (w w1 : World) (l1 : Limiter.t) (e : exn) :
  Limiter.acquire (TheSeedAPIClient.limiter self, w) = (inl e, (l1, w1)) ->
  TheSeedAPIClient.checked_json m u params body (self, w) =
    (inl e, (with_limiter self l1, w1)).
Proof.
  intro Hacq.
  unfold TheSeedAPIClient.checked_json, bind at 1, get_self at 1. cbn [fst snd].
  unfold bind at 1, TheSeedAPIClient.on_limiter, Limiter.__enter__. cbn [fst snd].
  rewrite Hacq. reflexivity.
Qed.

Lemma call_limiter_raises `{Runtime} `{Pydantic} (op : operation)
    (self : TheSeedAPIClient.t) (w w1 : World) (l1 : Limiter.t) (e : exn) :
  Limiter.acquire (TheSeedAPIClient.limiter self, w) = (inl e, (l1, w1)) ->
  call op (self, w) = (inl e, (with_limiter self l1, w1)).
Proof.
  intro Hacq.
  destruct op; unfold call, bind at 1;
    [ unfold TheSeedAPIClient.edit_get
    | unfold TheSeedAPIClient.edit_post
    | unfold TheSeedAPIClient.backlink
    | unfold TheSeedAPIClient.discuss ];
    unfold bind at 1, get_self at 1; cbn [fst snd];
    unfold bind at 1; rewrite (checked_json_limiter_raises _ _ _ _ _ _ _ _ _ Hacq);
    reflexivity.
Qed.

(** X5. When the limiter raises (its sleep overflows), the operation
    raises the same exception and sends no request. *)
Theorem limiter_error_sends_nothing `{Runtime} `{Pydantic} (op : operation)
    (self : TheSeedAPIClient.t) (w w1 : World) (l1 : Limiter.t) (e : exn) :
  Limiter.acquire (TheSeedAPIClient.limiter self, w) = (inl e, (l1, w1)) ->
  call op (self, w) = (inl e, (with_limiter self l1, w1)) /\
  sent w1 = sent w.
Proof.
  intro Hacq. split; [|exact (acquire_sent _ _ _ _ _ Hacq)].
  exact (call_limiter_raises op self w w1 l1 e Hacq).
Qed.

Lemma limiter_error_sends_nothing_witness :
  let R := server 200 hi_body hi_json in
  let self := TheSeedAPIClient.__init__ "https://wiki.example/w" "token"
                (Some stuck_limiter) in
  let w := mkWorld 1 [] [] in
  @call R plain_pydantic (op_edit_get "Main") (self, w) =
    (inl OverflowError,
     (with_limiter self stuck_limiter, mkWorld 1 [] [EvMonotonic 1])) /\
  sent (mkWorld 1 [] [EvMonotonic 1]) = sent w.
Proof.
  intros R self w.
  apply (@limiter_error_sends_nothing R plain_pydantic (op_edit_get "Main") self w).
  reflexivity.
Defined.

(** X6. [backlink] when neither the base URL nor the document holds a
    [?]: the query that leaves with the call of [session.get] holds exactly
    the arguments that were given, each under its own key, [fromm] under the
    key [from]; an argument that is given is sent even when it is an empty
    string, and no key is sent twice. *)
Theorem backlink_query_is_what_was_given `{Runtime} `{Pydantic} (document : string)
    (namespace : option string) (flag : option Z) (fromm until : option string)
    (self : TheSeedAPIClient.t) (w w1 : World) (l1 : Limiter.t) :
  contains "?" (TheSeedAPIClient.base_url self) = false ->
  contains "?" document = false ->
  Limiter.acquire (TheSeedAPIClient.limiter self, w) = (inr tt, (l1, w1)) ->
  exists r,
    sent (snd (snd (TheSeedAPIClient.backlink document namespace flag fromm until
                      (self, w)))) = r :: sent w /\
    (forall s, In ("namespace"%string, PStr s) (outgoing_query r) <-> namespace = Some s) /\
    (forall n, In ("flag"%string, PInt n) (outgoing_query r) <-> flag = Some n) /\
    (forall s, In ("from"%string, PStr s) (outgoing_query r) <-> fromm = Some s) /\
    (forall s, In ("until"%string, PStr s) (outgoing_query r) <-> until = Some s) /\
    (forall k v, In (k, v) (outgoing_query r) ->
                 In k ["namespace"; "flag"; "from"; "until"]%string) /\
    NoDup (map fst (outgoing_query r)).
Proof.
  intros Hbase Hdoc Hacq.
  pose proof (call_get_sent (op_backlink document namespace flag fromm until)
                self w w1 l1 I Hacq) as E.
  unfold call in E. rewrite snd_bind_ret in E.
  exists (request_of self (op_backlink document namespace flag fromm until)).
  split; [exact E|].
  assert (Hq : outgoing_query
                 (request_of self (op_backlink document namespace flag fromm until)) =
               encode_params [("namespace", option_map PStr namespace);
                              ("flag", option_map PInt flag);
                              ("from", option_map PStr fromm);
                              ("until", option_map PStr until)]%string).
  { unfold outgoing_query. cbn [request_of url query].
    rewrite url_params_absent; [reflexivity|].
    rewrite !contains_append, Hbase, Hdoc. reflexivity. }
  rewrite Hq.
  split; [|split; [|split; [|split; [|split]]]].
  - intro s. rewrite encode_params_supplied. cbn [In]. split.
    + intros [E1|[E1|[E1|[E1|[]]]]]; try discriminate E1.
      injection E1 as E1. destruct namespace; cbn in E1; congruence.
    + intros ->. cbn. auto 6.
  - intro n. rewrite encode_params_supplied. cbn [In]. split.
    + intros [E1|[E1|[E1|[E1|[]]]]]; try discriminate E1.
      injection E1 as E1. destruct flag; cbn in E1; congruence.
    + intros ->. cbn. auto 6.
  - intro s. rewrite encode_params_supplied. cbn [In]. split.
    + intros [E1|[E1|[E1|[E1|[]]]]]; try discriminate E1.
      injection E1 as E1. destruct fromm; cbn in E1; congruence.
    + intros ->. cbn. auto 6.
  - intro s. rewrite encode_params_supplied. cbn [In]. split.
    + intros [E1|[E1|[E1|[E1|[]]]]]; try discriminate E1.
      injection E1 as E1. destruct until; cbn in E1; congruence.
    + intros ->. cbn. auto 6.
  - intros k v Hin. apply encode_params_supplied in Hin. cbn [In] in *.
    destruct Hin as [E1|[E1|[E1|[E1|[]]]]]; injection E1 as <- _; auto 6.
  - destruct namespace, flag, fromm, until; cbn;
      repeat constructor; cbn; intuition discriminate.
Qed.

Lemma backlink_query_is_what_was_given_witness :
  let R := server 200 hi_body hi_json in
  let self := TheSeedAPIClient.__init__ "https://wiki.example/w" "token" None in
  let w := mkWorld 0 [] [] in
  exists r,
    sent (snd (snd (@TheSeedAPIClient.backlink R plain_pydantic "Main"
                      (Some EmptyString) None (Some "A"%string) None (self, w)))) =
      r :: sent w /\
    (forall s, In ("namespace"%string, PStr s) (outgoing_query r) <->
               Some EmptyString = Some s) /\
    (forall n, In ("flag"%string, PInt n) (outgoing_query r) <-> None = Some n) /\
    (forall s, In ("from"%string, PStr s) (outgoing_query r) <->
               Some "A"%string = Some s) /\
    (forall s, In ("until"%string, PStr s) (outgoing_query r) <-> None = Some s) /\
    (forall k v, In (k, v) (outgoing_query r) ->
                 In k ["namespace"; "flag"; "from"; "until"]%string) /\
    NoDup (map fst (outgoing_query r)).
Proof.
  intros R self w.
  apply (@backlink_query_is_what_was_given R plain_pydantic "Main"
           (Some EmptyString) None (Some "A"%string) None self w w
           (TheSeedAPIClient.limiter self)).
  - reflexivity.
  - reflexivity.
  - reflexivity.
Defined.

(** X7. [edit_get], [backlink] and [discuss] on a response that is not an
    error (by [raise_for_status]) and whose body is not JSON: the operation
    raises the decoding error, and no validation is attempted. *)
Theorem undecodable_body_raises `{Runtime} `{Pydantic} (op : operation)
    (self : TheSeedAPIClient.t) (w w1 : World) (l1 : Limiter.t) (resp : Response) :
  is_get op ->
  Limiter.acquire (TheSeedAPIClient.limiter self, w) = (inr tt, (l1, w1)) ->
  http_send (request_of self op) = inr resp ->
  is_error_status resp = false ->
  json_loads (text resp) = None ->
  call op (self, w) =
    (inl JSONDecodeError,
     (with_limiter self l1, log EvJson (log (EvSend (request_of self op)) w1))).
Proof.
  intros Hget Hacq Hsend Hst Hj.
  destruct op; cbn [request_of] in Hsend; try contradiction;
    unfold call, bind at 1;
    [ unfold TheSeedAPIClient.edit_get
    | unfold TheSeedAPIClient.backlink
    | unfold TheSeedAPIClient.discuss ];
    run_checked Hacq; cbn [encode_params] in *; rewrite Hsend, Hst, Hj; reflexivity.
Qed.

Lemma undecodable_body_raises_witness :
  let R := text_server 200 "<html>busy</html>" in
  let self := TheSeedAPIClient.__init__ "https://wiki.example/w" "token" None in
  let w := mkWorld 0 [] [] in
  @call R plain_pydantic (op_edit_get "Main") (self, w) =
    (inl JSONDecodeError,
     (with_limiter self (TheSeedAPIClient.limiter self),
      log EvJson (log (EvSend (request_of self (op_edit_get "Main"))) w))).
Proof.
  intros R self w.
  apply (@undecodable_body_raises
           (text_server 200 "<html>busy</html>") plain_pydantic
           (op_edit_get "Main") self w w (TheSeedAPIClient.limiter self)
           (mkResponse 200 "<html>busy</html>")).
  - exact I.
  - reflexivity.
  - reflexivity.
  - reflexivity.
  - reflexivity.
Defined.

(** X8. [edit_get] and [backlink] on a response that is not an error and
    whose body decodes to [j]: the outcome is the outcome of validating [j]
    against the model of the operation, the object or the [ValidationError]
    with all the errors, after exactly one decoding and one validation.
    (Nothing is said here of [edit_post], which does not get that far, nor
    of [discuss], which validates element by element.) *)
Theorem operation_validates_the_body `{Runtime} `{Pydantic} (op : operation)
    (self : TheSeedAPIClient.t) (w w1 : World) (l1 : Limiter.t) (resp : Response)
    (j : json) :
  Limiter.acquire (TheSeedAPIClient.limiter self, w) = (inr tt, (l1, w1)) ->
  http_send (request_of self op) = inr resp ->
  is_error_status resp = false ->
  json_loads (text resp) = Some j ->
  let s := (with_limiter self l1,
            log EvValidate (log EvJson (log (EvSend (request_of self op)) w1))) in
  match op with
  | op_edit_get document =>
      TheSeedAPIClient.edit_get document (self, w) =
        validate_or_raise (model_validate j) s
  | op_backlink document namespace flag fromm until =>
      TheSeedAPIClient.backlink document namespace flag fromm until (self, w) =
        validate_or_raise (model_validate j) s
  | op_edit_post _ _ | op_discuss _ => True
  end.
Proof.
  intros Hacq Hsend Hst Hj s.
  destruct op; cbn [request_of] in Hsend; try exact I;
    [ unfold TheSeedAPIClient.edit_get
    | unfold TheSeedAPIClient.backlink ];
    run_checked Hacq; cbn [encode_params] in *; rewrite Hsend, Hst, Hj;
    reflexivity.
Qed.

Lemma operation_validates_the_body_witness :
  let R := server 200 hi_body hi_json in
  let self := TheSeedAPIClient.__init__ "https://wiki.example/w" "token" None in
  let w := mkWorld 0 [] [] in
  @TheSeedAPIClient.edit_get R plain_pydantic "Main" (self, w) =
    validate_or_raise
      (@model_validate _ (@EditGETResponse.model plain_pydantic) hi_json)
      (with_limiter self (TheSeedAPIClient.limiter self),
       log EvValidate (log EvJson (log (EvSend (request_of self (op_edit_get "Main"))) w))).
Proof.
  intros R self w.
  apply (@operation_validates_the_body (server 200 hi_body hi_json) plain_pydantic
           (op_edit_get "Main") self w w (TheSeedAPIClient.limiter self)
           (mkResponse 200 hi_body) hi_json).
  - reflexivity.
  - reflexivity.
  - reflexivity.
  - reflexivity.
Defined.

(** ** discuss *)

Lemma validated_log (n : nat) (w : World) :
  validated n (log EvValidate w) = validated (S n) w.
Proof.
  unfold validated, log. cbn [clock delays trace].
  f_equal. change (EvValidate :: trace w) with ([EvValidate] ++ trace w).
  rewrite app_assoc, <- repeat_cons. reflexivity.
Qed.

Lemma validate_each_all `{Pydantic} (items : list json) (xs : list DiscussResponse.t) :
  Forall2 (fun item x => model_validate item = inr x) items xs ->
  forall (self : TheSeedAPIClient.t) (w : World),
    TheSeedAPIClient.validate_each DiscussResponse.t items (self, w) =
      (inr xs, (self, validated (List.length items) w)).
Proof.
  induction 1 as [|item x items xs Hx _ IH]; intros self w.
  - cbn. unfold ret, validated. cbn. now rewrite world_eta.
  - cbn [TheSeedAPIClient.validate_each List.length].
    unfold bind at 1, call_model_validate, bind at 1, emit. cbn [fst snd].
    rewrite Hx. cbn [validate_or_raise]. unfold ret at 1.
    unfold bind at 1. rewrite IH, validated_log. reflexivity.
Qed.

Lemma validate_each_first_refused `{Pydantic} (oks : list json)
    (xs : list DiscussResponse.t) (bad : json) (rest : list json)
    (es : list ErrorDetails) :
  Forall2 (fun item x => model_validate item = inr x) oks xs ->
  model_validate (T := DiscussResponse.t) bad = inl es ->
  forall (self : TheSeedAPIClient.t) (w : World),
    TheSeedAPIClient.validate_each DiscussResponse.t (oks ++ bad :: rest) (self, w) =
      (inl (ValidationError es), (self, validated (S (List.length oks)) w)).
Proof.
  intros Hoks Hbad. induction Hoks as [|item x items xs Hx _ IH]; intros self w.
  - cbn [app TheSeedAPIClient.validate_each List.length].
    unfold bind at 1, call_model_validate, bind at 1, emit. cbn [fst snd].
    rewrite Hbad. reflexivity.
  - cbn [app TheSeedAPIClient.validate_each List.length].
    unfold bind at 1, call_model_validate, bind at 1, emit. cbn [fst snd].
    rewrite Hx. cbn [validate_or_raise]. unfold ret at 1.
    unfold bind at 1. rewrite IH, validated_log. reflexivity.
Qed.

Lemma discuss_on_list `{Runtime} `{Pydantic} (document : string)
    (self : TheSeedAPIClient.t) (w w1 : World) (l1 : Limiter.t) (resp : Response)
    (j : json) :
  Limiter.acquire (TheSeedAPIClient.limiter self, w) = (inr tt, (l1, w1)) ->
  http_send (request_of self (op_discuss document)) = inr resp ->
  is_error_status resp = false ->
  json_loads (text resp) = Some j ->
  TheSeedAPIClient.discuss document (self, w) =
    bind (py_iter j) (TheSeedAPIClient.validate_each DiscussResponse.t)
      (with_limiter self l1,
       log EvJson (log (EvSend (request_of self (op_discuss document))) w1)).
Proof.
  intros Hacq Hsend Hst Hj. cbn [request_of] in Hsend.
  unfold TheSeedAPIClient.discuss. run_checked Hacq.
  cbn [encode_params]. rewrite Hsend, Hst, Hj. reflexivity.
Qed.

(** X9. [discuss] on a JSON array whose elements are all accepted: it
    returns the validated discussions in the order of the array, as many as
    the array has elements, after one validation per element. *)
Theorem discuss_returns_all_in_order `{Runtime} `{Pydantic} (document : string)
    (self : TheSeedAPIClient.t) (w w1 : World) (l1 : Limiter.t) (resp : Response)
    (items : list json) (xs : list DiscussResponse.t) :
  Limiter.acquire (TheSeedAPIClient.limiter self, w) = (inr tt, (l1, w1)) ->
  http_send (request_of self (op_discuss document)) = inr resp ->
  is_error_status resp = false ->
  json_loads (text resp) = Some (JList items) ->
  Forall2 (fun item x => model_validate item = inr x) items xs ->
  TheSeedAPIClient.discuss document (self, w) =
    (inr xs,
     (with_limiter self l1,
      validated (List.length items)
        (log EvJson (log (EvSend (request_of self (op_discuss document))) w1)))) /\
  List.length xs = List.length items.
Proof.
  intros Hacq Hsend Hst Hj Hall. split.
  - rewrite (discuss_on_list document self w w1 l1 resp _ Hacq Hsend Hst Hj).
    unfold bind at 1, py_iter, ret at 1.
    apply (validate_each_all items xs Hall).
  - symmetry. exact (Forall2_length Hall).
Qed.

(** X10. [discuss] on a JSON array with a refused element: the call raises
    the [ValidationError] of the first refused element, and the elements
    after it are not validated. *)
Theorem discuss_stops_at_first_refused `{Runtime} `{Pydantic} (document : string)
    (self : TheSeedAPIClient.t) (w w1 : World) (l1 : Limiter.t) (resp : Response)
    (oks : list json) (xs : list DiscussResponse.t) (bad : json) (rest : list json)
    (es : list ErrorDetails) :
  Limiter.acquire (TheSeedAPIClient.limiter self, w) = (inr tt, (l1, w1)) ->
  http_send (request_of self (op_discuss document)) = inr resp ->
  is_error_status resp = false ->
  json_loads (text resp) = Some (JList (oks ++ bad :: rest)) ->
  Forall2 (fun item x => model_validate item = inr x) oks xs ->
  model_validate (T := DiscussResponse.t) bad = inl es ->
  TheSeedAPIClient.discuss document (self, w) =
    (inl (ValidationError es),
     (with_limiter self l1,
      validated (S (List.length oks))
        (log EvJson (log (EvSend (request_of self (op_discuss document))) w1)))).
Proof.
  intros Hacq Hsend Hst Hj Hoks Hbad.
  rewrite (discuss_on_list document self w w1 l1 resp _ Hacq Hsend Hst Hj).
  unfold bind at 1, py_iter, ret at 1.
  apply (validate_each_first_refused oks xs bad rest es Hoks Hbad).
Qed.

(** X11. [discuss] on a body that is not a non-empty array: null, a
    boolean or a number is not iterable, the call raises [TypeError]; a
    non-empty object (or string) is iterated by its keys (its characters),
    the first of which is refused as not being a model; an empty array, object
    or string gives the empty list. *)
Theorem discuss_on_other_bodies `{Runtime} `{Pydantic} (document : string)
    (self : TheSeedAPIClient.t) (w w1 : World) (l1 : Limiter.t) (resp : Response)
    (j : json) :
  Limiter.acquire (TheSeedAPIClient.limiter self, w) = (inr tt, (l1, w1)) ->
  http_send (request_of self (op_discuss document)) = inr resp ->
  is_error_status resp = false ->
  json_loads (text resp) = Some j ->
  (forall item items, j <> JList (item :: items)) ->
  fst (TheSeedAPIClient.discuss document (self, w)) = discuss_on_other j.
Proof.
  intros Hacq Hsend Hst Hj Hnl.
  rewrite (discuss_on_list document self w w1 l1 resp _ Hacq Hsend Hst Hj).
  destruct j as [| | | |s|l|d]; try reflexivity.
  - destruct s; reflexivity.
  - destruct l as [|item items]; [reflexivity|].
    now destruct (Hnl item items).
  - destruct d as [|[k v] d]; reflexivity.
Qed.

Lemma discuss_returns_all_in_order_witness :
  let j := JList [JDict [("slug", JStr "a"); ("topic", JStr "A");
                         ("updated_date", JInt 1700000000);
                         ("status", JStr "normal")]%string;
                  JDict [("slug", JStr "b"); ("topic", JStr "B");
                         ("updated_date", JInt 1700000001);
                         ("status", JStr "close")]%string] in
  let R := server 200 "two discussions" j in
  let self := TheSeedAPIClient.__init__ "https://wiki.example/w" "token" None in
  let w := mkWorld 0 [] [] in
  let xs := [@DiscussResponse.mk plain_pydantic "a" "A" 1700000000%Z "normal";
             @DiscussResponse.mk plain_pydantic "b" "B" 1700000001%Z "close"] in
  @TheSeedAPIClient.discuss R plain_pydantic "Main" (self, w) =
    (inr xs,
     (with_limiter self (TheSeedAPIClient.limiter self),
      validated 2 (log EvJson (log (EvSend (request_of self (op_discuss "Main"))) w)))) /\
  List.length xs = 2%nat.
Proof.
  intros j R self w xs.
  apply (@discuss_returns_all_in_order R plain_pydantic "Main" self w w
           (TheSeedAPIClient.limiter self) (mkResponse 200 "two discussions")
           [JDict [("slug", JStr "a"); ("topic", JStr "A");
                   ("updated_date", JInt 1700000000);
                   ("status", JStr "normal")]%string;
            JDict [("slug", JStr "b"); ("topic", JStr "B");
                   ("updated_date", JInt 1700000001);
                   ("status", JStr "close")]%string] xs).
  - reflexivity.
  - reflexivity.
  - reflexivity.
  - reflexivity.
  - repeat constructor.
Defined.

Lemma discuss_stops_at_first_refused_witness :
  let ok := JDict [("slug", JStr "a"); ("topic", JStr "A");
                   ("updated_date", JInt 1700000000);
                   ("status", JStr "normal")]%string in
  let R := server 200 "three discussions" (JList ([ok] ++ JDict archived_item :: [ok])) in
  let self := TheSeedAPIClient.__init__ "https://wiki.example/w" "token" None in
  let w := mkWorld 0 [] [] in
  @TheSeedAPIClient.discuss R plain_pydantic "Main" (self, w) =
    (inl (ValidationError [mkError literal_error [LKey "status"]]),
     (with_limiter self (TheSeedAPIClient.limiter self),
      validated 2 (log EvJson (log (EvSend (request_of self (op_discuss "Main"))) w)))).
Proof.
  intros ok R self w.
  apply (@discuss_stops_at_first_refused R plain_pydantic "Main" self w w
           (TheSeedAPIClient.limiter self) (mkResponse 200 "three discussions")
           [ok] [@DiscussResponse.mk plain_pydantic "a" "A" 1700000000%Z "normal"]
           (JDict archived_item) [ok]).
  - reflexivity.
  - reflexivity.
  - reflexivity.
  - reflexivity.
  - repeat constructor.
  - reflexivity.
Defined.

Lemma discuss_on_other_bodies_witness :
  let R := server 200 hi_body hi_json in
  let self := TheSeedAPIClient.__init__ "https://wiki.example/w" "token" None in
  fst (@TheSeedAPIClient.discuss R plain_pydantic "Main" (self, mkWorld 0 [] [])) =
    inl (ValidationError [mkError model_type []]).
Proof.
  intros R self.
  apply (@discuss_on_other_bodies R plain_pydantic "Main" self
           (mkWorld 0 [] []) (mkWorld 0 [] [])
           (TheSeedAPIClient.limiter self) (mkResponse 200 hi_body) hi_json).
  - reflexivity.
  - reflexivity.
  - reflexivity.
  - reflexivity.
  - intros item items E. discriminate E.
Defined.

(** ** The constructor of the client *)

Lemma rstrip_slash_decompose (s : string) :
  exists n, s = (rstrip_slash s ++ slashes n)%string.
Proof.
  induction s as [|c s [n IH]]; [now exists 0%nat|].
  cbn [rstrip_slash].
  destruct (rstrip_slash s) as [|c' r] eqn:E.
  - destruct (Ascii.eqb c "/") eqn:Ec.
    + apply Ascii.eqb_eq in Ec. subst c. exists (S n).
      cbn in *. now rewrite IH at 1.
    + exists n. cbn in *. now rewrite IH at 1.
  - exists n. cbn in *. now rewrite IH at 1.
Qed.

Lemma rstrip_slash_no_slash (s p : string) :
  rstrip_slash s <> (p ++ "/")%string.
Proof.
  revert p. induction s as [|c s IH]; intro p; cbn [rstrip_slash].
  - destruct p; discriminate.
  - destruct (rstrip_slash s) as [|c' r] eqn:E.
    + destruct (Ascii.eqb c "/") eqn:Ec.
      * destruct p; discriminate.
      * destruct p as [|c2 p]; cbn.
        -- intro H. injection H as ->. cbn in Ec. discriminate Ec.
        -- intro H. injection H as _ H. destruct p; discriminate H.
    + destruct p as [|c2 p]; cbn.
      * intro H. discriminate H.
      * intro H. injection H as _ H. exact (IH p H).
Qed.

(** X12. The base URL that [__init__] keeps is the given URL without its
    trailing slashes: it never ends with a slash, the given URL is it followed
    by slashes only, and a URL already without trailing slash is kept as it
    is. The URL of an operation therefore has exactly the slash of its path
    after the base. *)
Theorem init_strips_trailing_slashes `{Runtime} (base_url api_token : string)
    (limiter : option Limiter.t) :
  let self := TheSeedAPIClient.__init__ base_url api_token limiter in
  (forall p, TheSeedAPIClient.base_url self <> (p ++ "/")%string) /\
  (exists n, base_url = (TheSeedAPIClient.base_url self ++ slashes n)%string) /\
  TheSeedAPIClient.base_url
    (TheSeedAPIClient.__init__ (TheSeedAPIClient.base_url self) api_token limiter) =
    TheSeedAPIClient.base_url self.
Proof.
  cbn. split; [|split].
  - apply rstrip_slash_no_slash.
  - apply rstrip_slash_decompose.
  - destruct (rstrip_slash_decompose (rstrip_slash base_url)) as [[|n] Hn].
    + cbn in Hn. rewrite Hn at 2.
      clear. induction (rstrip_slash (rstrip_slash base_url)); cbn; congruence.
    + exfalso. destruct (rstrip_slash_decompose (rstrip_slash base_url)) as [m Hm].
      clear Hm.
      assert (Hend : forall q k, exists p, (q ++ slashes (S k))%string = (p ++ "/")%string).
      { intros q k. revert q. induction k as [|k IHk]; intro q.
        - now exists q.
        - destruct (IHk (q ++ "/")%string) as [p Hp]. exists p.
          rewrite <- Hp. cbn. clear. induction q; cbn; congruence. }
      destruct (Hend (rstrip_slash (rstrip_slash base_url)) n) as [p Hp].
      rewrite <- Hn in Hp. exact (rstrip_slash_no_slash base_url p Hp).
Qed.

(** X13. Every call of the session that an operation of a client built by
    [__init__] makes is made with the three headers of the session: the
    bearer token, the JSON content type, and a user agent made of the user
    agent of requests, a space, and [pynamubot/] followed by the installed
    version, or by [0.0.0] when the package is not installed. This holds for
    the four operations and however the limiter and the call end;
    [edit_get], [backlink] and [discuss] make one such call once the limiter
    has let them through. *)
Theorem requests_carry_the_session_headers `{Runtime} `{Pydantic} (op : operation)
    (base_url api_token : string) (limiter : option Limiter.t) (w : World) :
  let self := TheSeedAPIClient.__init__ base_url api_token limiter in
  exists rs,
    sent (snd (snd (call op (self, w)))) = rs ++ sent w /\
    Forall (fun r =>
              headers r =
                [("Authorization", "Bearer " ++ api_token);
                 ("Content-Type", "application/json");
                 ("User-Agent",
                  default_user_agent ++ " pynamubot/" ++
                  match installed_version with Some v => v | None => "0.0.0" end)]%string)
           rs /\
    (forall l1 w1,
       is_get op ->
       Limiter.acquire (TheSeedAPIClient.limiter self, w) = (inr tt, (l1, w1)) ->
       List.length rs = 1%nat).
Proof.
  intro self.
  destruct (Limiter.acquire (TheSeedAPIClient.limiter self, w))
    as [[e|[]] [l1 w1]] eqn:Hacq.
  - exists []. rewrite (call_limiter_raises op self w w1 l1 e Hacq). cbn [snd app].
    split; [exact (acquire_sent _ _ _ _ _ Hacq)|].
    split; [constructor|]. intros l2 w2 _ E. discriminate E.
  - destruct op as [document|document body|document ns fl fr un|document].
    2:{ exists []. rewrite (call_edit_post _ _ _ _ _ _ Hacq). cbn [snd app].
        split; [exact (acquire_sent _ _ _ _ _ Hacq)|].
        split; [constructor|]. intros l2 w2 Hget. contradiction. }
    all: eexists [_]; split;
      [ match goal with
        | |- context [call ?op _] => exact (call_get_sent op self w w1 l1 I Hacq)
        end
      | split; [repeat constructor|reflexivity] ].
Qed.

(** X15. Two operations in a row on a client whose limiter is enabled,
    with a finite interval [i > 0] that [time.sleep] accepts and a
    [self.last] that is not later than the clock: whatever the two operations
    are and however the first one ends (result or exception), the limiter
    lets both through, the second at least [i] after the first. *)
Theorem operations_are_spaced `{Runtime} `{Pydantic} (i : Q) (op1 op2 : operation)
    (self : TheSeedAPIClient.t) (w : World) :
  0 < i ->
  fits i ->
  Limiter.interval (TheSeedAPIClient.limiter self) = Fin i ->
  Limiter.acquire_attr (TheSeedAPIClient.limiter self) = false ->
  not_ahead (TheSeedAPIClient.limiter self) (clock w) ->
  nonneg (delays w) ->
  let s1 := snd (call op1 (self, w)) in
  let s2 := snd (call op2 s1) in
  exists a b,
    Limiter.last (TheSeedAPIClient.limiter (fst s1)) = Fin a /\
    Limiter.last (TheSeedAPIClient.limiter (fst s2)) = Fin b /\
    a + i <= b.
Proof.
  intros Hi0 Hfit Hi Ha Hl Hw s1 s2.
  assert (Hstep : forall (self0 : TheSeedAPIClient.t) (w0 : World) (op : operation),
             Limiter.interval (TheSeedAPIClient.limiter self0) = Fin i ->
             Limiter.acquire_attr (TheSeedAPIClient.limiter self0) = false ->
             not_ahead (TheSeedAPIClient.limiter self0) (clock w0) ->
             nonneg (delays w0) ->
             exists w1 evs,
               snd (call op (self0, w0)) =
                 (with_limiter self0 (Limiter.mk (Fin i) false (Fin (clock w1))),
                  mkWorld (clock w1) (delays w1) (evs ++ trace w1)) /\
               nonneg (delays w1) /\
               forall a, Limiter.last (TheSeedAPIClient.limiter self0) = Fin a ->
                         a + i <= clock w1).
  { intros self0 w0 op Hi' Ha' Hl' Hw'.
    assert (Hl2 : Limiter.last (TheSeedAPIClient.limiter self0) = NInf \/
                  exists a, Limiter.last (TheSeedAPIClient.limiter self0) = Fin a).
    { destruct Hl' as [Hl'|[a [Hl' _]]]; [now left|right; now exists a]. }
    destruct (elapse_clock w0 Hw') as [Hc _].
    destruct (acquire_step i _ w0 Hi' Ha' Hl2 Hw') as [d [Hd0 [Hn [Hf Hcase]]]].
    assert (Hdi : d <= i).
    { destruct Hl' as [Hl'|[a [Hl' Hle]]].
      - rewrite (Hn Hl'). lra.
      - destruct (Hf a Hl') as [_ H2]. apply H2; lra. }
    destruct Hcase as [[_ [w1 [E [Hd1 [_ [_ Hsp]]]]]]|[Hnf _]].
    2:{ exfalso. apply Hnf. exact (fits_le d i Hdi Hfit). }
    exists w1.
    destruct op as [document|document body|document ns fl fr un|document].
    2:{ exists []. rewrite (call_edit_post _ _ _ _ _ _ E). cbn [snd app].
        rewrite world_eta. auto. }
    all: match goal with
         | |- context [call ?op _] =>
             destruct (call_get_state op self0 w0 w1 _ I E) as [evs [Es _]];
             exists (evs ++ [EvSend (request_of self0 op)]);
             rewrite Es, <- app_assoc; auto
         end. }
  destruct (Hstep self w op1 Hi Ha Hl Hw) as [w1 [evs1 [E1 [Hd1 _]]]].
  fold s1 in E1.
  set (self1 := with_limiter self (Limiter.mk (Fin i) false (Fin (clock w1)))) in *.
  set (w1' := mkWorld (clock w1) (delays w1) (evs1 ++ trace w1)) in *.
  assert (Hl1 : not_ahead (TheSeedAPIClient.limiter self1) (clock w1')).
  { right. exists (clock w1). split; [reflexivity|]. cbn [clock w1']. lra. }
  destruct (Hstep self1 w1' op2 eq_refl eq_refl Hl1 Hd1) as [w2 [evs2 [E2 [_ Hsp]]]].
  exists (clock w1), (clock w2). unfold s2. rewrite E1, E2. cbn [fst].
  repeat split. exact (Hsp (clock w1) eq_refl).
Qed.

Lemma operations_are_spaced_witness :
  let R := server 404 "not found" JNull in
  let self := TheSeedAPIClient.__init__ "https://wiki.example/w" "token"
                (Some (Limiter.__init__ (Fin 1))) in
  let w := mkWorld 0 [1 # 4; 0; 0; 1 # 8] [] in
  let s1 := snd (@call R plain_pydantic (op_edit_get "Main") (self, w)) in
  let s2 := snd (@call R plain_pydantic (op_discuss "Main") s1) in
  exists a b,
    Limiter.last (TheSeedAPIClient.limiter (fst s1)) = Fin a /\
    Limiter.last (TheSeedAPIClient.limiter (fst s2)) = Fin b /\
    a + 1 <= b.
Proof.
  intros R self w.
  apply (@operations_are_spaced R plain_pydantic 1 (op_edit_get "Main")
           (op_discuss "Main") self w).
  - reflexivity.
  - unfold fits, Qle. simpl. lia.
  - reflexivity.
  - reflexivity.
  - left. reflexivity.
  - unfold nonneg. cbn [delays w].
    repeat constructor; unfold Qle; simpl; lia.
Defined.

(** ** The schemas: what validation depends on and what it reports *)

(** X16. Validation of an object looks at the declared keys only: two
    objects that give every declared field the same value (or both lack it)
    are validated alike, whatever other keys they hold and in whatever order
    their keys come. *)
Theorem only_declared_keys_matter `{Pydantic} (T : Type) (B : BaseModel T)
    (shape : json -> T -> Prop) (d d' : list (string * json)) :
  schema T B shape ->
  (forall f, In f (@model_fields T B) -> dict_get f d = dict_get f d') ->
  @model_validate T B (JDict d) = @model_validate T B (JDict d').
Proof.
  intros HS Hd.
  destruct HS;
    cbn [model_fields model_validate EditGETResponse.model EditPOSTBody.model
         EditPOSTResponse.model Namespaces.model Backlinks.model
         BacklinkResponse.model DiscussResponse.model] in *;
    unfold field;
    repeat match goal with
           | |- context [dict_get ?k d] => rewrite (Hd k) by (cbn; auto 10)
           end;
    reflexivity.
Qed.

Lemma only_declared_keys_matter_witness :
  @model_validate EditGETResponse.t (@EditGETResponse.model plain_pydantic)
    (JDict [("token", JStr "t1"); ("extra", JInt 7); ("text", JStr "hi");
            ("exists", JBool true)]%string) =
  @model_validate EditGETResponse.t (@EditGETResponse.model plain_pydantic)
    (JDict [("text", JStr "hi"); ("exists", JBool true); ("token", JStr "t1")]%string).
Proof.
  apply (@only_declared_keys_matter plain_pydantic EditGETResponse.t _
           shape_EditGETResponse).
  - constructor.
  - intros f Hf. cbn in Hf. destruct Hf as [<-|[<-|[<-|[]]]]; reflexivity.
Defined.

(** X17. A payload that is not a JSON object (an array, a string, a
    number, a boolean, null) is refused by every model with the single error
    [model_type], located at the payload itself. *)
Theorem non_object_payload_is_refused `{Pydantic} (T : Type) (B : BaseModel T)
    (shape : json -> T -> Prop) (j : json) :
  schema T B shape ->
  (forall d, j <> JDict d) ->
  @model_validate T B j = inl [mkError model_type []].
Proof.
  intros HS Hj.
  destruct HS; destruct j; try reflexivity; now destruct (Hj items).
Qed.

Lemma non_object_payload_is_refused_witness :
  @model_validate EditGETResponse.t (@EditGETResponse.model plain_pydantic)
    (JList []) = inl [mkError model_type []].
Proof.
  apply (@non_object_payload_is_refused plain_pydantic EditGETResponse.t _
           shape_EditGETResponse).
  - constructor.
  - intros d E. discriminate E.
Defined.

Lemma errors_of_at_loc {A} (l : loc_item) (r : result A) :
  errors_of (at_loc l r) =
    map (fun e => mkError (err_type e) (l :: err_loc e)) (errors_of r).
Proof. now destruct r. Qed.

Lemma errors_of_validate_items {A} (v : validator A) (l : list json) :
  forall (i k : nat) (j : json) (e : ErrorDetails),
    nth_error l k = Some j ->
    In e (errors_of (v j)) ->
    In (mkError (err_type e) (LIdx (i + k) :: err_loc e))
       (errors_of (validate_items v i l)).
Proof.
  induction l as [|x l IH]; intros i [|k] j e Hk He; try discriminate.
  - injection Hk as ->. cbn [validate_items].
    rewrite !errors_of_ap, errors_of_at_loc, !in_app_iff. left. right.
    rewrite Nat.add_0_r.
    exact (in_map (fun e0 => mkError (err_type e0) (LIdx i :: err_loc e0)) _ e He).
  - cbn [validate_items]. rewrite !errors_of_ap, !in_app_iff. right.
    replace (i + S k)%nat with (S i + k)%nat by lia.
    now apply (IH (S i) k j e).
Qed.

Lemma errors_of_field_list {A} (name : string) (v : validator A)
    (d : list (string * json)) (l : list json) (k : nat) (j : json) (e : ErrorDetails) :
  dict_get name d = Some (JList l) ->
  nth_error l k = Some j ->
  In e (errors_of (v j)) ->
  In (mkError (err_type e) (LKey name :: LIdx k :: err_loc e))
     (errors_of (field name (v_list v) d)).
Proof.
  intros Hd Hk He. unfold field. rewrite Hd. cbn [v_list].
  rewrite errors_of_at_loc.
  apply (in_map (fun e => mkError (err_type e) (LKey name :: err_loc e))
           _ (mkError (err_type e) (LIdx k :: err_loc e))).
  exact (errors_of_validate_items v l 0 k j e Hk He).
Qed.

(** X18. An error inside an element of [namespaces] or [backlinks] is
    reported with its path: when the element at index [k] of the list lacks
    the key of a field, [BacklinkResponse] is refused with an error [missing]
    located at the name of the list, the index [k], and the name of that
    field. *)
Theorem nested_errors_are_located `{Pydantic} (d : list (string * json))
    (l : list json) (k : nat) (dk : list (string * json)) (f : string) :
  (dict_get "namespaces" d = Some (JList l) ->
   nth_error l k = Some (JDict dk) ->
   In f (model_fields Namespaces.t) ->
   dict_get f dk = None ->
   exists es,
     model_validate (T := BacklinkResponse.t) (JDict d) = inl es /\
     In (mkError missing [LKey "namespaces"; LIdx k; LKey f]) es) /\
  (dict_get "backlinks" d = Some (JList l) ->
   nth_error l k = Some (JDict dk) ->
   In f (model_fields Backlinks.t) ->
   dict_get f dk = None ->
   exists es,
     model_validate (T := BacklinkResponse.t) (JDict d) = inl es /\
     In (mkError missing [LKey "backlinks"; LIdx k; LKey f]) es).
Proof.
  split; intros Hd Hk Hf Hdk; apply errors_of_inl;
    cbn [model_validate BacklinkResponse.model];
    rewrite !errors_of_ap, !in_app_iff.
  - left. left. left. right.
    apply (errors_of_field_list "namespaces" _ d l k (JDict dk)
             (mkError missing [LKey f]) Hd Hk).
    cbn [model_fields Namespaces.model In] in Hf.
    cbn [model_validate Namespaces.model].
    rewrite !errors_of_ap.
    destruct Hf as [<-|[<-|[]]]; rewrite (field_missing _ _ _ Hdk), !in_app_iff;
      cbn [In]; auto 10.
  - left. left. right.
    apply (errors_of_field_list "backlinks" _ d l k (JDict dk)
             (mkError missing [LKey f]) Hd Hk).
    cbn [model_fields Backlinks.model In] in Hf.
    cbn [model_validate Backlinks.model].
    rewrite !errors_of_ap.
    destruct Hf as [<-|[<-|[]]]; rewrite (field_missing _ _ _ Hdk), !in_app_iff;
      cbn [In]; auto 10.
Qed.

Lemma nested_errors_are_located_witness :
  exists es,
    @model_validate BacklinkResponse.t (@BacklinkResponse.model plain_pydantic)
      (JDict [("namespaces",
               JList [JDict [("namespace", JStr "a"); ("count", JInt 1)];
                      JDict [("namespace", JStr "b")]]);
              ("backlinks", JList []);
              ("fromm", JNull); ("until", JNull)]%string) = inl es /\
    In (mkError missing [LKey "namespaces"; LIdx 1; LKey "count"]) es.
Proof.
  apply (proj1 (@nested_errors_are_located plain_pydantic
           [("namespaces",
             JList [JDict [("namespace", JStr "a"); ("count", JInt 1)];
                    JDict [("namespace", JStr "b")]]);
            ("backlinks", JList []);
            ("fromm", JNull); ("until", JNull)]%string
           [JDict [("namespace", JStr "a"); ("count", JInt 1)];
            JDict [("namespace", JStr "b")]]%string
           1 [("namespace", JStr "b")]%string "count")).
  - reflexivity.
  - reflexivity.
  - simpl. auto.
  - reflexivity.
Defined.

Lemma ap_inr {A B} (f : result (A -> B)) (a : result A) (y : B) :
  f <*> a = inr y -> exists g x, f = inr g /\ a = inr x /\ y = g x.
Proof.
  destruct f as [e|g], a as [e'|x]; simpl; intro E; try discriminate.
  injection E as <-. now exists g, x.
Qed.

Lemma field_inr {A} (name : string) (v : validator A) (d : list (string * json)) (a : A) :
  field name v d = inr a -> exists j, dict_get name d = Some j /\ v j = inr a.
Proof.
  unfold field. destruct (dict_get name d) as [j|]; [|discriminate].
  intro E. exists j. split; [reflexivity|].
  destruct (v j); [discriminate|]. exact E.
Qed.

Lemma v_str_inr (j : json) (s : string) : v_str j = inr s -> j = JStr s.
Proof. destruct j; simpl; intro E; try discriminate. congruence. Qed.

Lemma v_literal_inr (choices : list string) (j : json) (s : string) :
  v_literal choices j = inr s -> j = JStr s /\ In s choices.
Proof.
  destruct j as [| | | |s'| |]; simpl; intro E; try discriminate.
  destruct (existsb (String.eqb s') choices) eqn:Ex; [|discriminate].
  injection E as <-. split; [reflexivity|].
  apply existsb_exists in Ex. destruct Ex as [c [Hc Heq]].
  apply String.eqb_eq in Heq. now subst c.
Qed.

Lemma field_str_has (name : string) (d : list (string * json)) (s : string) :
  field name v_str d = inr s -> has d name (eq (JStr s)).
Proof.
  intro E. destruct (field_inr _ _ _ _ E) as [j [Hj Hv]].
  exists j. split; [exact Hj|]. symmetry. now apply v_str_inr.
Qed.

(** X19. For the models whose fields are strings, a literal and a
    datetime ([DiscussResponse], [EditPOSTBody], [Backlinks]), validation
    accepts a payload exactly when it matches the schema, and the object it
    returns holds the values of the payload: nothing else is accepted, nothing
    is converted. *)
Theorem validation_is_exact `{Pydantic} (j : json) :
  (forall x : DiscussResponse.t, model_validate j = inr x <-> shape_DiscussResponse j x) /\
  (forall x : EditPOSTBody.t, model_validate j = inr x <-> shape_EditPOSTBody j x) /\
  (forall x : Backlinks.t, model_validate j = inr x <-> shape_Backlinks j x).
Proof.
  split; [|split]; intro x; split.
  - destruct j as [| | | | | |d]; try discriminate.
    cbn [model_validate DiscussResponse.model]. intro E.
    apply ap_inr in E. destruct E as [g4 [x4 [E [F4 ->]]]].
    apply ap_inr in E. destruct E as [g3 [x3 [E [F3 ->]]]].
    apply ap_inr in E. destruct E as [g2 [x2 [E [F2 ->]]]].
    apply ap_inr in E. destruct E as [g1 [x1 [E [F1 ->]]]].
    injection E as <-.
    exists d. split; [reflexivity|]. cbn.
    split; [now apply field_str_has|]. split; [now apply field_str_has|].
    destruct (field_inr _ _ _ _ F3) as [j3 [Hj3 Hv3]].
    destruct (field_inr _ _ _ _ F4) as [j4 [Hj4 Hv4]].
    apply v_literal_inr in Hv4. destruct Hv4 as [-> Hin].
    split; [|split; [now exists (JStr x4)|exact Hin]].
    exists j3. split; [exact Hj3|].
    unfold v_datetime in Hv3. destruct (datetime_validate j3); [|discriminate].
    congruence.
  - apply validate_DiscussResponse.
  - destruct j as [| | | | | |d]; try discriminate.
    cbn [model_validate EditPOSTBody.model]. intro E.
    apply ap_inr in E. destruct E as [g3 [x3 [E [F3 ->]]]].
    apply ap_inr in E. destruct E as [g2 [x2 [E [F2 ->]]]].
    apply ap_inr in E. destruct E as [g1 [x1 [E [F1 ->]]]].
    injection E as <-.
    exists d. split; [reflexivity|]. cbn.
    repeat split; now apply field_str_has.
  - apply validate_EditPOSTBody.
  - destruct j as [| | | | | |d]; try discriminate.
    cbn [model_validate Backlinks.model]. intro E.
    apply ap_inr in E. destruct E as [g2 [x2 [E [F2 ->]]]].
    apply ap_inr in E. destruct E as [g1 [x1 [E [F1 ->]]]].
    injection E as <-.
    exists d. split; [reflexivity|]. cbn.
    repeat split; now apply field_str_has.
  - apply validate_Backlinks.
Qed.

(** ** The enumerations of theseedwiki.py *)

Lemma NamespaceType_all (m : NamespaceType.t) : In m NamespaceType.members.
Proof. destruct m; cbn; auto 12. Qed.

(** X21. The values of [NamespaceType] are pairwise distinct, so a member
    is found again from its value: [NamespaceType(m.value)] is [m], a lookup
    that succeeds returns the member with that value, and a string that is
    the value of no member raises [ValueError]. *)
Theorem namespace_type_by_value :
  (forall m, NamespaceType.of_value (NamespaceType.value m) = inr m) /\
  (forall v m, NamespaceType.of_value v = inr m -> NamespaceType.value m = v) /\
  (forall v, (forall m, NamespaceType.value m <> v) ->
             NamespaceType.of_value v = inl ValueError).
Proof.
  split; [|split].
  - intro m. destruct m; reflexivity.
  - intros v m. unfold NamespaceType.of_value.
    destruct (find _ NamespaceType.members) as [m'|] eqn:E; [|discriminate].
    intros [= <-]. apply find_some in E. destruct E as [_ E].
    now apply String.eqb_eq in E.
  - intros v Hv. unfold NamespaceType.of_value.
    destruct (find _ NamespaceType.members) as [m'|] eqn:E; [|reflexivity].
    apply find_some in E. destruct E as [_ E].
    apply String.eqb_eq in E. now destruct (Hv m').
Qed.

Lemma BacklinkType_land (x m : BacklinkType.t) :
  m <> BacklinkType.ANY ->
  (Z.land (BacklinkType.value x) (BacklinkType.value m) <> 0%Z <-> x = m).
Proof.
  intro Hm. destruct x, m; cbn; split; intro E;
    try reflexivity; try discriminate; try congruence.
Qed.

(** X22. [BacklinkType]: a member is found again from its value, and the
    members other than [ANY] are independent bits: in the union ([|]) of any
    members, the bit of a member is set exactly when the member is among
    them. [ANY] is zero and adds nothing. *)
Theorem backlink_type_flags :
  (forall m, BacklinkType.of_value (BacklinkType.value m) = inr m) /\
  (forall v m, BacklinkType.of_value v = inr m -> BacklinkType.value m = v) /\
  (forall ms m,
     m <> BacklinkType.ANY ->
     (Z.land (BacklinkType.union ms) (BacklinkType.value m) <> 0%Z <-> In m ms)) /\
  (forall ms, BacklinkType.union (BacklinkType.ANY :: ms) = BacklinkType.union ms).
Proof.
  split; [|split; [|split]].
  - intro m. destruct m; reflexivity.
  - intros v m. unfold BacklinkType.of_value.
    destruct (find _ BacklinkType.members) as [m'|] eqn:E; [|discriminate].
    intros [= <-]. apply find_some in E. destruct E as [_ E].
    now apply Z.eqb_eq in E.
  - intros ms m Hm. induction ms as [|x ms IH].
    + cbn. split; [intro E; now destruct E|intros []].
    + cbn [BacklinkType.union fold_right In].
      fold (BacklinkType.union ms).
      rewrite Z.land_lor_distr_l.
      rewrite <- IH, <- (BacklinkType_land x m Hm).
      set (a := Z.land (BacklinkType.value x) (BacklinkType.value m)).
      set (b := Z.land (BacklinkType.union ms) (BacklinkType.value m)).
      pose proof (Z.lor_eq_0_iff a b) as HL.
      destruct (Z.eq_dec a 0), (Z.eq_dec b 0); tauto.
  - intro ms. reflexivity.
Qed.

(** X23. An empty JSON object is refused by every model with one error
    [missing] per declared field, in the order in which the class declares
    its fields. *)
Theorem empty_object_misses_every_field `{Pydantic} (T : Type) (B : BaseModel T)
    (shape : json -> T -> Prop) :
  schema T B shape ->
  @model_validate T B (JDict []) =
    inl (map (fun f => mkError missing [LKey f]) (@model_fields T B)).
Proof.
  intro HS. destruct HS; reflexivity.
Qed.

Lemma empty_object_misses_every_field_witness :
  @model_validate BacklinkResponse.t (@BacklinkResponse.model plain_pydantic) (JDict []) =
    inl [mkError missing [LKey "namespaces"]; mkError missing [LKey "backlinks"];
         mkError missing [LKey "fromm"]; mkError missing [LKey "until"]].
Proof.
  exact (@empty_object_misses_every_field plain_pydantic BacklinkResponse.t _
           shape_BacklinkResponse (@schema_BacklinkResponse plain_pydantic)).
Defined.
